(** * Portal-Upravnik: the persistence layer of [storageUtils.js]

    A shallow embedding of [storageUtils.js] (the generic
    [loadFromStorage]/[saveToStorage] adapter, the key builders and the
    entity accessors) together with the part of the JavaScript platform
    the file relies on: [localStorage], [JSON.stringify]/[JSON.parse],
    the [Number]/[String]/truthiness coercions, [console.error] and the
    clock read by [new Date()].  Beside it stand the string and month
    functions of [dateUtils.js] ([formatDateDMY], [ymNow], [ymToIndex],
    [monthsBetweenInclusive]) and the required-field checks of
    [validationUtils.js].  What these two files format through
    [toLocaleString], parse as dates, divide as doubles, match with
    regular expressions or do to the DOM is not embedded, and neither
    are the messages written with characters beyond Latin-1.

    Modelling conventions.
    - JavaScript strings are [string]s: the code units are bytes, that
      is the Latin-1 part of UTF-16.
    - JavaScript numbers are IEEE doubles; the model keeps [NaN], the
      two infinities and writes a finite number as the exact decimal
      [m * 10^e] in lowest terms (which is how [Number::toString]
      identifies a double).  Rounding of long literals to 53 bits and
      the sign of zero are not modelled.
    - A plain object is a finite map from property names to values, so
      equality of values is deep equality and member order is not
      observable.  An array is the list of its elements together with
      the named properties assigned to it.
    - Effects are explicit: a computation takes the [world] (the
      backend, its write policy, the console and the clock) and returns
      a [result] (normal completion or a thrown exception) and the new
      world.

    Where the platform model stops, and how the statements keep clear
    of it.
    - [JSON.parse] reads an escape [\uXXXX] above [\u00ff] as a
      character the strings of the model do not have; the parser of the
      model rejects such a text.  The statements whose hypothesis is a
      failing parse are about texts with [byte_escapes], where the two
      parsers agree.
    - [Number(text)] and the number grammar of [JSON.parse] keep the
      exact decimal: the platform rounds to 53 bits, overflows to an
      infinity and underflows to zero.  The statement that branches on
      the number read from an arbitrary stored string is about
      [exact_double] numbers, which a double holds as written.
    - [JSON.stringify] writes the members of an object in the order of
      the map, the platform in the order of insertion.  No statement
      depends on the order of the members inside a stored text. *)

From Stdlib Require Import ZArith NArith Ascii String.
From stdpp Require Import gmap strings list fin_maps.

#[local] Set Warnings "-register-all".

(** ** Characters and digit strings *)

Module Chars.

Definition code (c : ascii) : N := N_of_ascii c.

Definition is_digit (c : ascii) : bool :=
  (48 <=? code c)%N && (code c <=? 57)%N.

Definition digit_val (c : ascii) : N := (code c - 48)%N.

Definition digit_char (d : N) : ascii := ascii_of_N (48 + d).

(** Value of a string of decimal digits, most significant first. *)
Fixpoint digits_value_acc (s : string) (acc : N) : N :=
  match s with
  | EmptyString => acc
  | String c r => digits_value_acc r (10 * acc + digit_val c)%N
  end.

Definition digits_value (s : string) : N := digits_value_acc s 0.

(** Longest prefix of decimal digits, and what follows it. *)
Fixpoint span_digits (s : string) : string * string :=
  match s with
  | String c r =>
      if is_digit c then
        let '(d, r') := span_digits r in (String c d, r')
      else (EmptyString, s)
  | EmptyString => (EmptyString, EmptyString)
  end.

(** Decimal digits of a natural number, no leading zero ([0] is "0"). *)
Fixpoint to_digits (fuel : nat) (n : N) (acc : string) : string :=
  match fuel with
  | O => acc
  | S f =>
      let acc' := String (digit_char (n mod 10)) acc in
      if (n / 10 =? 0)%N then acc' else to_digits f (n / 10)%N acc'
  end.

Definition N_to_string (n : N) : string :=
  to_digits (S (N.to_nat (N.log2 n))) n EmptyString.

Fixpoint zeros (n : nat) : string :=
  match n with
  | O => EmptyString
  | S k => String "0" (zeros k)
  end.

Fixpoint take (n : nat) (s : string) : string :=
  match n, s with
  | S k, String c r => String c (take k r)
  | _, _ => EmptyString
  end.

Fixpoint drop (n : nat) (s : string) : string :=
  match n, s with
  | S k, String _ r => drop k r
  | _, _ => s
  end.

(** The double quote, and a way to write it inside literals: [q] turns
    every apostrophe into a double quote. *)
Definition dquote : ascii := ascii_of_N 34.

Fixpoint q (s : string) : string :=
  match s with
  | EmptyString => EmptyString
  | String c r => String (if Ascii.eqb c "'" then dquote else c) (q r)
  end.

Fixpoint all_digits (s : string) : bool :=
  match s with
  | EmptyString => true
  | String c r => is_digit c && all_digits r
  end.

(** The first digit is not a zero. *)
Definition leading_nonzero (s : string) : bool :=
  match s with
  | EmptyString => false
  | String c _ => negb (Ascii.eqb c "0")
  end.

(** [expect c s] is [Some r] when [s] is [c] followed by [r]. *)
Definition expect (c : ascii) (s : string) : option string :=
  match s with
  | String d r => if Ascii.eqb d c then Some r else None
  | EmptyString => None
  end.

(** [strip_prefix p s] is [Some r] when [s = p ++ r]. *)
Fixpoint strip_prefix (p s : string) : option string :=
  match p, s with
  | EmptyString, _ => Some s
  | String a p', String b s' =>
      if Ascii.eqb a b then strip_prefix p' s' else None
  | String _ _, EmptyString => None
  end.

End Chars.

(** ** Numbers *)

Module Num.
Import Chars.

Inductive number :=
| NaN
| Inf (neg : bool)
| Fin (m e : Z).   (* the finite number [m * 10^e] *)

(** Removing the factors of ten of a non-zero mantissa. *)
Fixpoint strip10 (fuel : nat) (m e : Z) : Z * Z :=
  match fuel with
  | O => (m, e)
  | S f =>
      if (m mod 10 =? 0)%Z then strip10 f (m / 10)%Z (e + 1)%Z else (m, e)
  end.

(** The finite number [m * 10^e], in lowest terms. *)
Definition fin (m e : Z) : number :=
  if (m =? 0)%Z then Fin 0 0
  else let '(m', e') := strip10 (Z.to_nat (Z.log2 (Z.abs m))) m e in
       Fin m' e'.

Definition of_Z (z : Z) : number := fin z 0.

(** Lowest terms: what [fin] produces. *)
Definition canonical (x : number) : bool :=
  match x with
  | Fin m e => if (m =? 0)%Z then (e =? 0)%Z else negb (m mod 10 =? 0)%Z
  | _ => true
  end.

Definition is_NaN (x : number) : bool :=
  match x with NaN => true | _ => false end.

(** [Number.isFinite]. *)
Definition is_finite (x : number) : bool :=
  match x with Fin _ _ => true | _ => false end.

Definition is_zero (x : number) : bool :=
  match x with Fin m _ => (m =? 0)%Z | _ => false end.

(** [Number::toString] (radix 10).  With [k] digits [ds] and
    [n = k + e], the value is [0.ds * 10^n]. *)
Definition finite_to_string (m e : Z) : string :=
  let ds := N_to_string (Z.abs_N m) in
  let k := Z.of_nat (String.length ds) in
  let n := (k + e)%Z in
  let body :=
    if (k <=? n)%Z && (n <=? 21)%Z then
      ds +:+ zeros (Z.to_nat (n - k))
    else if (0 <? n)%Z && (n <=? 21)%Z then
      take (Z.to_nat n) ds +:+ "." +:+ drop (Z.to_nat n) ds
    else if (-6 <? n)%Z && (n <=? 0)%Z then
      "0." +:+ zeros (Z.to_nat (- n)) +:+ ds
    else
      let x := (n - 1)%Z in
      let mant :=
        if (k =? 1)%Z then ds else take 1 ds +:+ "." +:+ drop 1 ds in
      mant +:+ "e" +:+ (if (x <? 0)%Z then "-" else "+")
           +:+ N_to_string (Z.abs_N x)
  in
  if (m <? 0)%Z then "-" +:+ body else body.

Definition to_string (x : number) : string :=
  match x with
  | NaN => "NaN"
  | Inf false => "Infinity"
  | Inf true => "-Infinity"
  | Fin m e => if (m =? 0)%Z then "0" else finite_to_string m e
  end.

(** *** [StringToNumber]: the grammar of [Number(string)] *)

(** White space and line terminators, as far as they are bytes. *)
Definition is_space (c : ascii) : bool :=
  let n := code c in
  ((9 <=? n)%N && (n <=? 13)%N) || (n =? 32)%N || (n =? 160)%N.

Fixpoint trim_left (s : string) : string :=
  match s with
  | String c r => if is_space c then trim_left r else s
  | EmptyString => EmptyString
  end.

Fixpoint trim_right (s : string) : string :=
  match s with
  | String c r =>
      match trim_right r with
      | EmptyString => if is_space c then EmptyString else String c EmptyString
      | r' => String c r'
      end
  | EmptyString => EmptyString
  end.

Definition trim (s : string) : string := trim_right (trim_left s).

(** [ExponentPart] that ends the literal: [Some 0] when there is none. *)
Definition exponent_part (s : string) : option Z :=
  match s with
  | EmptyString => Some 0%Z
  | String c r =>
      if Ascii.eqb c "e" || Ascii.eqb c "E" then
        let '(neg, r1) :=
          match r with
          | String "-" r' => (true, r')
          | String "+" r' => (false, r')
          | _ => (false, r)
          end in
        match span_digits r1 with
        | (String d ds, EmptyString) =>
            let x := Z.of_N (digits_value (String d ds)) in
            Some (if neg then (- x)%Z else x)
        | _ => None
        end
      else None
  end.

(** [StrUnsignedDecimalLiteral] without [Infinity]: mantissa and
    exponent. *)
Definition unsigned_decimal (s : string) : option (Z * Z) :=
  let '(ip, r1) := span_digits s in
  let '(fp, r2) :=
    match r1 with
    | String "." r => span_digits r
    | _ => (EmptyString, r1)
    end in
  match ip +:+ fp with
  | EmptyString => None
  | ds =>
      match exponent_part r2 with
      | Some x =>
          Some (Z.of_N (digits_value ds), (x - Z.of_nat (String.length fp))%Z)
      | None => None
      end
  end.

(** Digits in radix 2, 8 or 16. *)
Definition radix_digit (radix : N) (c : ascii) : option N :=
  let n := code c in
  let d :=
    if (48 <=? n)%N && (n <=? 57)%N then Some (n - 48)%N
    else if (97 <=? n)%N && (n <=? 102)%N then Some (n - 87)%N
    else if (65 <=? n)%N && (n <=? 70)%N then Some (n - 55)%N
    else None in
  match d with
  | Some v => if (v <? radix)%N then Some v else None
  | None => None
  end.

Fixpoint radix_value (radix : N) (s : string) (acc : N) : option N :=
  match s with
  | EmptyString => Some acc
  | String c r =>
      match radix_digit radix c with
      | Some d => radix_value radix r (radix * acc + d)%N
      | None => None
      end
  end.

(** [NonDecimalIntegerLiteral]: [0x], [0o], [0b] and their capitals. *)
Definition non_decimal (s : string) : option N :=
  match s with
  | String "0" (String p (String c r)) =>
      let radix :=
        if Ascii.eqb p "x" || Ascii.eqb p "X" then Some 16%N
        else if Ascii.eqb p "o" || Ascii.eqb p "O" then Some 8%N
        else if Ascii.eqb p "b" || Ascii.eqb p "B" then Some 2%N
        else None in
      match radix with
      | Some b => radix_value b (String c r) 0
      | None => None
      end
  | _ => None
  end.

Definition of_string (s : string) : number :=
  let t := trim s in
  match t with
  | EmptyString => Fin 0 0
  | _ =>
      match non_decimal t with
      | Some v => of_Z (Z.of_N v)
      | None =>
          let '(neg, u) :=
            match t with
            | String "-" r => (true, r)
            | String "+" r => (false, r)
            | _ => (false, t)
            end in
          if String.eqb u "Infinity" then Inf neg
          else
            match unsigned_decimal u with
            | Some (m, e) => fin (if neg then (- m)%Z else m) e
            | None => NaN
            end
      end
  end.

End Num.

(** ** Values, exceptions and coercions *)

Module JS.
Import Chars.
Export Num.

Inductive exn := SyntaxError | TypeError | QuotaExceededError.

(** Completion of an evaluation: a value or a thrown exception. *)
Inductive result (A : Type) :=
| Return (a : A)
| Throw (e : exn).
Arguments Return {A} a.
Arguments Throw {A} e.

Definition bind {A B} (r : result A) (k : A → result B) : result B :=
  match r with
  | Return a => k a
  | Throw e => Throw e
  end.

(** [f] on every element, in order, until one throws. *)
Fixpoint mapM {A B} (f : A → result B) (l : list A) : result (list B) :=
  match l with
  | [] => Return []
  | x :: r => bind (f x) (λ y, bind (mapM f r) (λ ys, Return (y :: ys)))
  end.

(** The values the layer handles: JSON data, [undefined] and BigInt (the
    one value of this kind that [JSON.stringify] refuses).  An array
    carries its elements and the named properties assigned to it. *)
Inductive value :=
| VUndefined
| VNull
| VBool (b : bool)
| VNum (x : number)
| VStr (s : string)
| VBigInt (z : Z)
| VArr (elems : list value) (props : gmap string value)
| VObj (props : gmap string value).

Definition num (z : Z) : value := VNum (of_Z z).
Definition empty_array : value := VArr [] ∅.
Definition empty_object : value := VObj ∅.

(** [ToBoolean]: truthiness. *)
Definition ToBoolean (v : value) : bool :=
  match v with
  | VUndefined | VNull => false
  | VBool b => b
  | VNum x => negb (is_NaN x || is_zero x)
  | VStr s => negb (String.eqb s "")
  | VBigInt z => negb (z =? 0)%Z
  | VArr _ _ | VObj _ => true
  end.

(** [a || b] and [a ?? b]. *)
Definition or_else (a b : value) : value := if ToBoolean a then a else b.

Definition is_nullish (v : value) : bool :=
  match v with VUndefined | VNull => true | _ => false end.

Definition nullish_else (a b : value) : value := if is_nullish a then b else a.

(** [v.name] for a name that is no array index, not [length] and not
    defined by a prototype: an own property or [undefined].  Reading a
    property of [null] or [undefined] throws. *)
Definition get_field (v : value) (name : string) : result value :=
  match v with
  | VUndefined | VNull => Throw TypeError
  | VObj p | VArr _ p => Return (default VUndefined (p !! name))
  | _ => Return VUndefined
  end.

(** [v.name = x] in a script that is not in strict mode: assigning to a
    property of a primitive does nothing. *)
Definition set_field (v : value) (name : string) (x : value) : result value :=
  match v with
  | VUndefined | VNull => Throw TypeError
  | VObj p => Return (VObj (<[name := x]> p))
  | VArr l p => Return (VArr l (<[name := x]> p))
  | _ => Return v
  end.

Definition Z_to_string (z : Z) : string :=
  if (z <? 0)%Z then "-" +:+ N_to_string (Z.abs_N z)
  else N_to_string (Z.abs_N z).

Definition join_comma (l : list string) : string :=
  match l with
  | [] => ""
  | s :: r => foldl (λ acc t, acc +:+ "," +:+ t) s r
  end.

(** [String(v)].  The values hold no functions, so an own [toString]
    (or, on an array, [join]) property shadows the inherited method
    with something that cannot be called: [OrdinaryToPrimitive] then
    finds no method returning a primitive and throws. *)
Fixpoint ToString (v : value) : result string :=
  match v with
  | VUndefined => Return "undefined"
  | VNull => Return "null"
  | VBool b => Return (if b then "true" else "false")
  | VNum x => Return (to_string x)
  | VStr s => Return s
  | VBigInt z => Return (Z_to_string z)
  | VObj p =>
      match p !! "toString" with
      | Some _ => Throw TypeError
      | None => Return "[object Object]"
      end
  | VArr l p =>
      match p !! "toString" with
      | Some _ => Throw TypeError
      | None =>
          match p !! "join" with
          | Some _ => Return "[object Array]"
          | None =>
              bind
                (mapM (λ x, match x with
                            | VUndefined | VNull => Return EmptyString
                            | _ => ToString x
                            end) l)
                (λ ss, Return (join_comma ss))
          end
      end
  end.

(** [Number(v)]: a BigInt converts, an object goes through
    [ToPrimitive], which yields the same string as [ToString]. *)
Definition ToNumber (v : value) : result number :=
  match v with
  | VUndefined => Return NaN
  | VNull => Return (Fin 0 0)
  | VBool b => Return (if b then Fin 1 0 else Fin 0 0)
  | VNum x => Return x
  | VStr s => Return (of_string s)
  | VBigInt z => Return (of_Z z)
  | VArr _ _ | VObj _ => bind (ToString v) (λ s, Return (of_string s))
  end.

End JS.

(** ** JSON *)

Module JSON.
Import Chars.
Import JS.

Definition hex_char (d : N) : ascii :=
  if (d <? 10)%N then ascii_of_N (48 + d) else ascii_of_N (87 + d).

(** [QuoteJSONString], one code unit at a time. *)
Definition quote_char (c : ascii) : string :=
  let n := code c in
  if (n =? 8)%N then "\b"
  else if (n =? 9)%N then "\t"
  else if (n =? 10)%N then "\n"
  else if (n =? 12)%N then "\f"
  else if (n =? 13)%N then "\r"
  else if (n =? 34)%N then String "\" (String dquote "")
  else if (n =? 92)%N then "\\"
  else if (n <? 32)%N then
    "\u00" +:+ String (hex_char (n / 16)) (String (hex_char (n mod 16)) "")
  else String c "".

Fixpoint quote_body (s : string) : string :=
  match s with
  | EmptyString => EmptyString
  | String c r => quote_char c +:+ quote_body r
  end.

Definition quote (s : string) : string :=
  String dquote (quote_body s +:+ String dquote "").

(** [SerializeJSONProperty]: [None] stands for [undefined] (the
    property is left out, an array element becomes [null]).  Members
    come out in the enumeration order of the map. *)
Fixpoint serialize (v : value) : result (option string) :=
  match v with
  | VUndefined => Return None
  | VNull => Return (Some "null")
  | VBool b => Return (Some (if b then "true" else "false"))
  | VNum x => Return (Some (if is_finite x then to_string x else "null"))
  | VStr s => Return (Some (quote s))
  | VBigInt _ => Throw TypeError
  | VArr l _ =>
      bind
        (mapM (λ x, bind (serialize x) (λ s, Return (default "null" s))) l)
        (λ ss, Return (Some ("[" +:+ join_comma ss +:+ "]")))
  | VObj p =>
      bind
        (map_fold
           (λ k x (acc : result (list string)),
              bind (serialize x)
                (λ s, bind acc
                        (λ ms, Return
                                 match s with
                                 | Some t => (quote k +:+ ":" +:+ t) :: ms
                                 | None => ms
                                 end)))
           (Return []) p)
        (λ ms, Return (Some ("{" +:+ join_comma ms +:+ "}")))
  end.

(** [JSON.stringify(v)] with one argument. *)
Definition stringify (v : value) : result (option string) := serialize v.

(** *** [JSON.parse] *)

(** Outcome of a parsing step: a result and the rest of the text, a
    syntax error, or not enough fuel to go on. *)
Inductive presult (A : Type) :=
| Parsed (a : A) (rest : string)
| Bad
| OutOfFuel.
Arguments Parsed {A} a rest.
Arguments Bad {A}.
Arguments OutOfFuel {A}.

(** JSON white space: tab, line feed, carriage return, space. *)
Definition is_ws (c : ascii) : bool :=
  let n := code c in
  (n =? 9)%N || (n =? 10)%N || (n =? 13)%N || (n =? 32)%N.

Fixpoint skip_ws (s : string) : string :=
  match s with
  | String c r => if is_ws c then skip_ws r else s
  | EmptyString => EmptyString
  end.

(** The character an escape letter stands for. *)
Definition unescape (c : ascii) : option ascii :=
  if Ascii.eqb c dquote then Some dquote
  else if Ascii.eqb c "\" then Some "\"%char
  else if Ascii.eqb c "/" then Some "/"%char
  else if Ascii.eqb c "b" then Some (ascii_of_N 8)
  else if Ascii.eqb c "f" then Some (ascii_of_N 12)
  else if Ascii.eqb c "n" then Some (ascii_of_N 10)
  else if Ascii.eqb c "r" then Some (ascii_of_N 13)
  else if Ascii.eqb c "t" then Some (ascii_of_N 9)
  else None.

Definition hex4 (a b c d : ascii) : option N :=
  match radix_digit 16 a, radix_digit 16 b, radix_digit 16 c, radix_digit 16 d with
  | Some x, Some y, Some z, Some w => Some (((x * 16 + y) * 16 + z) * 16 + w)%N
  | _, _, _, _ => None
  end.

(** A string literal after its opening quote.  An escape [\uXXXX]
    above [\u00ff] names a code unit that is no byte; the model has no
    string to return for it and rejects the text. *)
Fixpoint parse_string (s : string) : option (string * string) :=
  match s with
  | EmptyString => None
  | String c r =>
      if Ascii.eqb c dquote then Some (EmptyString, r)
      else if Ascii.eqb c "\" then
        match r with
        | String e r1 =>
            if Ascii.eqb e "u" then
              match r1 with
              | String h1 (String h2 (String h3 (String h4 r2))) =>
                  match hex4 h1 h2 h3 h4 with
                  | Some n =>
                      if (n <? 256)%N then
                        match parse_string r2 with
                        | Some (t, r') => Some (String (ascii_of_N n) t, r')
                        | None => None
                        end
                      else None
                  | None => None
                  end
              | _ => None
              end
            else
              match unescape e with
              | Some ch =>
                  match parse_string r1 with
                  | Some (t, r') => Some (String ch t, r')
                  | None => None
                  end
              | None => None
              end
        | EmptyString => None
        end
      else if (code c <? 32)%N then None
      else
        match parse_string r with
        | Some (t, r') => Some (String c t, r')
        | None => None
        end
  end.

(** A JSON number: [-? int frac? exp?], no leading zero, at least one
    digit after the point and in the exponent. *)
Definition signed (neg : bool) (n : N) : Z :=
  if neg then (- Z.of_N n)%Z else Z.of_N n.

Definition parse_sign (s : string) : bool * string :=
  match expect "-" s with
  | Some r => (true, r)
  | None => (false, s)
  end.

Definition parse_fraction (s : string) : option (string * string) :=
  match expect "." s with
  | Some r =>
      match span_digits r with
      | (EmptyString, _) => None
      | (fp, r2) => Some (fp, r2)
      end
  | None => Some (EmptyString, s)
  end.

Definition parse_exponent (s : string) : option (Z * string) :=
  match s with
  | String c r =>
      if Ascii.eqb c "e" || Ascii.eqb c "E" then
        let '(eneg, r3) :=
          match expect "-" r with
          | Some r' => (true, r')
          | None =>
              match expect "+" r with
              | Some r' => (false, r')
              | None => (false, r)
              end
          end in
        match span_digits r3 with
        | (EmptyString, _) => None
        | (xs, r4) => Some (signed eneg (digits_value xs), r4)
        end
      else Some (0%Z, s)
  | EmptyString => Some (0%Z, s)
  end.

Definition parse_number (s : string) : option (number * string) :=
  let '(neg, s1) := parse_sign s in
  let '(ip, r1) := span_digits s1 in
  if (String.length ip =? 0)%nat then None
  else if negb (leading_nonzero ip) && negb (String.length ip =? 1)%nat then None
  else
    match parse_fraction r1 with
    | None => None
    | Some (fp, r2) =>
        match parse_exponent r2 with
        | None => None
        | Some (x, r4) =>
            Some (fin (signed neg (digits_value (ip +:+ fp)))
                      (x - Z.of_nat (String.length fp))%Z, r4)
        end
    end.

Definition parse_literal (word : string) (v : value) (s : string)
  : presult value :=
  match strip_prefix word s with
  | Some r => Parsed v r
  | None => Bad
  end.

(** A JSON value, the elements of an array after its bracket and the
    members of an object after its brace.  A repeated member name keeps
    the last value. *)
Fixpoint parse_value (fuel : nat) (s : string) : presult value :=
  match fuel with
  | O => OutOfFuel
  | S f =>
      match skip_ws s with
      | EmptyString => Bad
      | String c r =>
          if Ascii.eqb c "{" then
            match expect "}" (skip_ws r) with
            | Some r' => Parsed (VObj ∅) r'
            | None => parse_members f r ∅
            end
          else if Ascii.eqb c "[" then
            match expect "]" (skip_ws r) with
            | Some r' => Parsed (VArr [] ∅) r'
            | None => parse_elements f r []
            end
          else if Ascii.eqb c dquote then
            match parse_string r with
            | Some (t, r') => Parsed (VStr t) r'
            | None => Bad
            end
          else if Ascii.eqb c "n" then parse_literal "null" VNull (String c r)
          else if Ascii.eqb c "t" then parse_literal "true" (VBool true) (String c r)
          else if Ascii.eqb c "f" then parse_literal "false" (VBool false) (String c r)
          else
            match parse_number (String c r) with
            | Some (x, r') => Parsed (VNum x) r'
            | None => Bad
            end
      end
  end
with parse_elements (fuel : nat) (s : string) (acc : list value)
  : presult value :=
  match fuel with
  | O => OutOfFuel
  | S f =>
      match parse_value f s with
      | Parsed v r =>
          match expect "," (skip_ws r) with
          | Some r' => parse_elements f r' (v :: acc)
          | None =>
              match expect "]" (skip_ws r) with
              | Some r' => Parsed (VArr (rev (v :: acc)) ∅) r'
              | None => Bad
              end
          end
      | Bad => Bad
      | OutOfFuel => OutOfFuel
      end
  end
with parse_members (fuel : nat) (s : string) (acc : gmap string value)
  : presult value :=
  match fuel with
  | O => OutOfFuel
  | S f =>
      match expect dquote (skip_ws s) with
      | Some r =>
          match parse_string r with
          | Some (k, r1) =>
              match expect ":" (skip_ws r1) with
              | Some r2 =>
                  match parse_value f r2 with
                  | Parsed v r3 =>
                      match expect "," (skip_ws r3) with
                      | Some r4 => parse_members f r4 (<[k := v]> acc)
                      | None =>
                          match expect "}" (skip_ws r3) with
                          | Some r4 => Parsed (VObj (<[k := v]> acc)) r4
                          | None => Bad
                          end
                      end
                  | Bad => Bad
                  | OutOfFuel => OutOfFuel
                  end
              | None => Bad
              end
          | None => Bad
          end
      | None => Bad
      end
  end.

(** [JSON.parse(text)] with one argument: one value, white space
    around it, nothing else.  The fuel is more than any text needs
    (see [parse_value_fuel]). *)
Definition parse (text : string) : result value :=
  match parse_value (2 * String.length text + 2) text with
  | Parsed v r =>
      match skip_ws r with
      | EmptyString => Return v
      | _ => Throw SyntaxError
      end
  | Bad | OutOfFuel => Throw SyntaxError
  end.


End JSON.

(** ** The world: backend, console and clock *)

Module World.
Import JS.

(** [items] is the content of [localStorage].  [accepts items key text]
    tells whether the backend, holding [items], takes the write of
    [text] under [key]; a refused write throws [QuotaExceededError] and
    changes nothing.  [console] collects what [console.error] prints,
    [year] and [month] are what [new Date()] reads ([month] counts
    from 0). *)
Record world := World {
  items : gmap string string;
  accepts : gmap string string → string → string → bool;
  console : list (string * exn);
  year : Z;
  month : Z;
}.

Definition with_items (w : world) (m : gmap string string) : world :=
  World m (accepts w) (console w) (year w) (month w).

Definition with_console (w : world) (c : list (string * exn)) : world :=
  World (items w) (accepts w) c (year w) (month w).

(** A computation: from a world to a completion and a world. *)
Definition js (A : Type) : Type := world → result A * world.

#[export] Instance js_ret : MRet js := λ A a w, (Return a, w).

#[export] Instance js_bind : MBind js := λ A B k m w,
  match m w with
  | (Return a, w') => k a w'
  | (Throw e, w') => (Throw e, w')
  end.

(** A pure evaluation that may throw. *)
Definition lift {A} (r : result A) : js A := λ w, (r, w).

(** [try { body } catch (error) { handler }]. *)
Definition try_catch {A} (body : js A) (handler : exn → js A) : js A :=
  λ w, match body w with
       | (Throw e, w') => handler e w'
       | done => done
       end.

(** [localStorage.getItem(key)]: the stored string, or [null]. *)
Definition getItem (key : string) : js value :=
  λ w, (Return (match items w !! key with
                | Some s => VStr s
                | None => VNull
                end), w).

(** [localStorage.setItem(key, text)]. *)
Definition setItem (key text : string) : js unit :=
  λ w, if accepts w (items w) key text
       then (Return (), with_items w (<[key := text]> (items w)))
       else (Throw QuotaExceededError, w).

(** The string a storage method receives for what [JSON.stringify]
    returned: [undefined] is written as its name. *)
Definition DOMString (r : option string) : string := default "undefined" r.

(** [console.error(message, error)]. *)
Definition console_error (message : string) (error : exn) : js unit :=
  λ w, (Return (), with_console w (console w ++ [(message, error)])).

(** [new Date()], read through [getFullYear()] and [getMonth()]. *)
Definition getFullYear : js Z := λ w, (Return (year w), w).
Definition getMonth : js Z := λ w, (Return (month w), w).

(** [s.padStart(n, c)] for a filler [c] of one character. *)
Fixpoint filler (n : nat) (c : ascii) : string :=
  match n with
  | O => EmptyString
  | S k => String c (filler k c)
  end.

Definition padStart (n : nat) (c : ascii) (s : string) : string :=
  filler (n - String.length s) c +:+ s.

End World.

(** ** [storageUtils.js] *)

Module StorageUtils.
Import JS.
Import World.

(** A parameter with a default value: [undefined] (also an omitted
    argument) takes the default. *)
Definition default_param (arg dflt : value) : value :=
  match arg with
  | VUndefined => dflt
  | _ => arg
  end.

Definition is_null (v : value) : bool :=
  match v with VNull => true | _ => false end.

Definition is_undefined (v : value) : bool :=
  match v with VUndefined => true | _ => false end.

(** [JSON.stringify(v)] and [JSON.parse(v)] as the code calls them. *)
Definition JSON_stringify (v : value) : js (option string) :=
  lift (JSON.stringify v).

Definition JSON_parse (v : value) : js value :=
  lift (bind (ToString v) JSON.parse).

Definition loadFromStorage (key : string) (defaultValue seedValue : value)
  : js value :=
  let defaultValue := default_param defaultValue empty_array in
  let seedValue := default_param seedValue VNull in
  try_catch
    (raw ← getItem key;
     if negb (ToBoolean raw) then
       if negb (is_null seedValue) then
         text ← JSON_stringify seedValue;
         setItem key (DOMString text);;
         mret seedValue
       else mret defaultValue
     else
       parsed ← JSON_parse raw;
       mret (if negb (is_null parsed) && negb (is_undefined parsed)
             then parsed else defaultValue))
    (λ error,
       console_error ("Error loading from localStorage (key: " +:+ key +:+ "):")
         error;;
       mret defaultValue).

Definition saveToStorage (key : string) (v : value) : js value :=
  try_catch
    (text ← JSON_stringify v;
     setItem key (DOMString text);;
     mret (VBool true))
    (λ error,
       console_error ("Error saving to localStorage (key: " +:+ key +:+ "):")
         error;;
       mret (VBool false)).

Definition KEY_BUILDINGS_DB : string := "pu_buildings_db_v1".
Definition KEY_USERS_DB : string := "PORTAL_USERS_DB".

Definition loadBuildingsDB : js value :=
  loadFromStorage KEY_BUILDINGS_DB empty_array VUndefined.

Definition saveBuildingsDB (rows : value) : js value :=
  saveToStorage KEY_BUILDINGS_DB rows.

Definition loadUsersDB : js value :=
  loadFromStorage KEY_USERS_DB empty_array VUndefined.

Definition saveUsersDB (rows : value) : js value :=
  saveToStorage KEY_USERS_DB (or_else rows empty_array).

Definition kDues (bid : string) : string := "pu_dues_v1__" +:+ bid.

Definition loadDues (bid : string) : js value :=
  y ← getFullYear;
  m ← getMonth;
  let startMonth :=
    to_string (of_Z y) +:+ "-" +:+ padStart 2 "0" (to_string (of_Z (m + 1))) in
  let defaultSeed :=
    VObj (<["monthlyFee" := num 2000]>
         (<["startMonth" := VStr startMonth]>
         (<["paymentsByUser" := empty_object]> ∅))) in
  data ← loadFromStorage (kDues bid) VNull defaultSeed;
  if negb (ToBoolean data) then mret defaultSeed
  else
    fee ← lift (get_field data "monthlyFee");
    fee ← lift (ToNumber (nullish_else fee (num 2000)));
    data ← lift (set_field data "monthlyFee" (VNum fee));
    sm ← lift (get_field data "startMonth");
    sm ← lift (ToString (or_else sm (VStr startMonth)));
    data ← lift (set_field data "startMonth" (VStr sm));
    pbu ← lift (get_field data "paymentsByUser");
    data ← lift (set_field data "paymentsByUser" (or_else pbu empty_object));
    mret data.

Definition saveDues (bid : string) (obj : value) : js value :=
  saveToStorage (kDues bid) obj.

Definition kFinanceItems (bid : string) : string :=
  "pu_finance_items_v3__" +:+ bid.

Definition loadItems (bid : string) (seedData : value) : js value :=
  let seedData := default_param seedData VNull in
  loadFromStorage (kFinanceItems bid) empty_array seedData.

Definition saveItems (bid : string) (rows : value) : js value :=
  saveToStorage (kFinanceItems bid) rows.

Definition kFirms (bid : string) : string := "pu_finance_firms_v3__" +:+ bid.

Definition loadFirms (bid : string) (seedData : value) : js value :=
  let seedData := default_param seedData VNull in
  loadFromStorage (kFirms bid) empty_array seedData.

Definition saveFirms (bid : string) (firms : value) : js value :=
  saveToStorage (kFirms bid) firms.

Definition kBoard (bid : string) : string := "pu_board_posts_v2__" +:+ bid.

Definition loadBoardPosts (bid : string) (seedData : value) : js value :=
  let seedData := default_param seedData VNull in
  loadFromStorage (kBoard bid) empty_array seedData.

Definition saveBoardPosts (bid : string) (rows : value) : js value :=
  saveToStorage (kBoard bid) rows.

Definition kForum (bid : string) : string := "pu_forum_proposals_v2__" +:+ bid.

Definition loadProposals (bid : string) (seedData : value) : js value :=
  let seedData := default_param seedData VNull in
  loadFromStorage (kForum bid) empty_array seedData.

Definition saveProposals (bid : string) (rows : value) : js value :=
  saveToStorage (kForum bid) rows.

Definition kOpeningBalance (bid : string) : string :=
  "pu_opening_balance__" +:+ bid.

Definition loadOpeningBalance (bid : string) : js value :=
  raw ← getItem (kOpeningBalance bid);
  if negb (ToBoolean raw) then
    let seed := num 0 in
    text ← lift (ToString seed);
    setItem (kOpeningBalance bid) text;;
    mret seed
  else
    n ← lift (ToNumber raw);
    mret (or_else (VNum n) (num 0)).

Definition saveOpeningBalance (bid : string) (val : value) : js value :=
  try_catch
    (n ← lift (ToNumber (or_else val (num 0)));
     text ← lift (ToString (VNum n));
     setItem (kOpeningBalance bid) text;;
     mret (VBool true))
    (λ error,
       console_error "Error saving opening balance:" error;;
       mret (VBool false)).

Definition kRead (bid kind : string) : string :=
  "pu_read_" +:+ kind +:+ "__" +:+ bid.

Definition loadReadMap (bid kind : string) : js value :=
  loadFromStorage (kRead bid kind) empty_object VUndefined.

Definition saveReadMap (bid kind : string) (map : value) : js value :=
  saveToStorage (kRead bid kind) map.

End StorageUtils.

(** ** Arithmetic on numbers *)

(** The operations [dateUtils.js] applies to numbers, computed exactly
    on the decimal representation: they agree with the double
    operations wherever operands and result are integers below [2^53]
    in size, which is where the statements below use them. *)
Module Arith.
Import Num.

Definition opp (x : number) : number :=
  match x with
  | NaN => NaN
  | Inf neg => Inf (negb neg)
  | Fin m e => Fin (- m) e
  end.

(** [x + y]. *)
Definition add (x y : number) : number :=
  match x, y with
  | NaN, _ | _, NaN => NaN
  | Inf a, Inf b => if Bool.eqb a b then Inf a else NaN
  | Inf a, Fin _ _ => Inf a
  | Fin _ _, Inf b => Inf b
  | Fin m1 e1, Fin m2 e2 =>
      let e := Z.min e1 e2 in
      fin (m1 * 10 ^ (e1 - e) + m2 * 10 ^ (e2 - e)) e
  end.

(** [x - y]. *)
Definition sub (x y : number) : number := add x (opp y).

(** [x * y]. *)
Definition mul (x y : number) : number :=
  match x, y with
  | NaN, _ | _, NaN => NaN
  | Inf a, Inf b => Inf (xorb a b)
  | Inf a, Fin m _ | Fin m _, Inf a =>
      if (m =? 0)%Z then NaN else Inf (xorb a (m <? 0)%Z)
  | Fin m1 e1, Fin m2 e2 => fin (m1 * m2) (e1 + e2)
  end.

(** [x < y]. *)
Definition ltb (x y : number) : bool :=
  match x, y with
  | NaN, _ | _, NaN => false
  | _, Inf true => false
  | Inf true, _ => true
  | Inf false, _ => false
  | Fin _ _, Inf false => true
  | Fin m1 e1, Fin m2 e2 =>
      let e := Z.min e1 e2 in
      (m1 * 10 ^ (e1 - e) <? m2 * 10 ^ (e2 - e))%Z
  end.

(** [Math.max(x, y)]. *)
Definition Math_max (x y : number) : number :=
  if is_NaN x || is_NaN y then NaN else if ltb x y then y else x.

End Arith.

(** ** [dateUtils.js] *)

Module DateUtils.
Import Chars.
Import JS.
Import World.
Import Arith.

(** [s.split(sep)] for a separator of one character: the pieces between
    the separators, at least one. *)
Fixpoint split (sep : ascii) (s : string) : list string :=
  match s with
  | EmptyString => [EmptyString]
  | String c r =>
      if Ascii.eqb c sep then EmptyString :: split sep r
      else
        match split sep r with
        | piece :: pieces => String c piece :: pieces
        | [] => [String c EmptyString]
        end
  end.

(** An element of an array of strings inside a template literal:
    a missing one is [undefined]. *)
Definition template_part (parts : list string) (i : nat) : string :=
  default "undefined" (parts !! i).

Definition formatDateDMY (dateStr : value) : result value :=
  if negb (ToBoolean dateStr) then Return (VStr "")
  else
    bind (ToString dateStr) (λ s,
      let parts := split "-" s in
      if negb (length parts =? 3) then Return dateStr
      else
        let year := template_part parts 0 in
        let month := template_part parts 1 in
        let day := template_part parts 2 in
        Return (VStr (day +:+ "." +:+ month +:+ "." +:+ year +:+ "."))).

Definition ymNow : js value :=
  y ← getFullYear;
  m ← getMonth;
  mret (VStr (to_string (of_Z y) +:+ "-"
              +:+ padStart 2 "0" (to_string (of_Z (m + 1))))).

(** [Number.isFinite(v)]: no coercion, [false] for what is no number. *)
Definition Number_isFinite (v : value) : bool :=
  match v with
  | VNum x => is_finite x
  | _ => false
  end.

Definition ymToIndex (ym : value) : result value :=
  bind (ToString (or_else ym (VStr ""))) (λ s,
    let nums := map (λ piece, VNum (of_string piece)) (split "-" s) in
    let y := default VUndefined (nums !! 0) in
    let m := default VUndefined (nums !! 1) in
    if negb (Number_isFinite y) || negb (Number_isFinite m) then Return (num 0)
    else
      bind (ToNumber y) (λ y,
      bind (ToNumber m) (λ m,
        Return (VNum (add (mul y (of_Z 12)) (sub m (of_Z 1))))))).

Definition monthsBetweenInclusive (startYM endYM : value) : result value :=
  bind (ymToIndex endYM) (λ i,
  bind (ymToIndex startYM) (λ j,
  bind (ToNumber i) (λ i,
  bind (ToNumber j) (λ j,
    Return (VNum (Math_max (of_Z 0) (add (sub i j) (of_Z 1)))))))).

End DateUtils.

(** ** [validationUtils.js]: required fields *)

Module ValidationUtils.
Import Chars.
Import JS.
Import StorageUtils.

(** The verdict [{ valid, error }]. *)
Definition verdict (valid : bool) (error : string) : value :=
  VObj (<["valid" := VBool valid]> (<["error" := VStr error]> ∅)).

Definition validateRequired (v fieldName : value) : result value :=
  let fieldName := default_param fieldName (VStr "Field") in
  bind (ToString (or_else v (VStr ""))) (λ s,
    let trimmed := trim s in
    if negb (ToBoolean (VStr trimmed)) then
      bind (ToString fieldName) (λ name,
        Return (verdict false (name +:+ " je obavezan.")))
    else Return (verdict true "")).

(** The body of [for (const field of fields)], on the values the
    iteration yields. *)
Fixpoint validateRequiredFields_loop (fields : list value) : result value :=
  match fields with
  | [] => Return (verdict true "")
  | field :: rest =>
      bind (get_field field "value") (λ v,
      bind (get_field field "name") (λ name,
      bind (validateRequired v name) (λ result,
      bind (get_field result "valid") (λ valid,
        if negb (ToBoolean valid) then Return result
        else validateRequiredFields_loop rest))))
  end.

(** The characters of a string, as iterating it yields them. *)
Fixpoint characters (s : string) : list value :=
  match s with
  | EmptyString => []
  | String c r => VStr (String c EmptyString) :: characters r
  end.

(** An array yields its elements and a string its characters; nothing
    else among the values can be iterated. *)
Definition validateRequiredFields (fields : value) : result value :=
  match fields with
  | VArr elems _ => validateRequiredFields_loop elems
  | VStr s => validateRequiredFields_loop (characters s)
  | _ => Throw TypeError
  end.

End ValidationUtils.

(** * Properties *)

Import Chars JS World StorageUtils JSON.

(** ** Vocabulary of the statements *)

(** What [getItem] hands to the code is falsy when nothing is stored
    and when the empty string is. *)
Definition nothing_usable (w : world) (key : string) : Prop :=
  items w !! key = None ∨ items w !! key = Some EmptyString.

(** The message [loadFromStorage] and [saveToStorage] log. *)
Definition load_error (key : string) : string :=
  "Error loading from localStorage (key: " +:+ key +:+ "):".

Definition save_error (key : string) : string :=
  "Error saving to localStorage (key: " +:+ key +:+ "):".

(** [saveToStorage(key, v)] cannot store: the serialization throws, or
    the backend refuses the text. *)
Definition store_fails (w : world) (key : string) (v : value) : Prop :=
  match JSON.stringify v with
  | Return t => accepts w (items w) key (DOMString t) = false
  | Throw _ => True
  end.

(** The year and month [loadDues] computes from the clock. *)
Definition current_month (w : world) : string :=
  to_string (of_Z (year w)) +:+ "-"
  +:+ padStart 2 "0" (to_string (of_Z (month w + 1))).

(** An own property, [undefined] when there is none. *)
Definition field (p : gmap string value) (name : string) : value :=
  default VUndefined (p !! name).

(** The entity families and the key each one builds. *)
Inductive family :=
| Buildings | Users | Dues | FinanceItems | Firms | Board | Forum
| OpeningBalance | ReadMap.

Definition key_of (f : family) (bid kind : string) : string :=
  match f with
  | Buildings => KEY_BUILDINGS_DB
  | Users => KEY_USERS_DB
  | Dues => kDues bid
  | FinanceItems => kFinanceItems bid
  | Firms => kFirms bid
  | Board => kBoard bid
  | Forum => kForum bid
  | OpeningBalance => kOpeningBalance bid
  | ReadMap => kRead bid kind
  end.

(** The families whose key depends on the tenant only. *)
Definition per_tenant (f : family) : bool :=
  match f with
  | Buildings | Users | ReadMap => false
  | _ => true
  end.

Fixpoint no_underscore (s : string) : bool :=
  match s with
  | EmptyString => true
  | String c r => negb (Ascii.eqb c "_") && no_underscore r
  end.

(** The text after a number token does not extend it. *)
Definition number_end (s : string) : bool :=
  match s with
  | EmptyString => true
  | String c _ =>
      negb (is_digit c || Ascii.eqb c "." || Ascii.eqb c "e" || Ascii.eqb c "E")
  end.

(** The text after a digit string does not go on with a digit. *)
Definition digits_end (s : string) : bool :=
  match s with
  | EmptyString => true
  | String c _ => negb (is_digit c)
  end.

(** What follows a value inside a JSON text written by [stringify]: the
    end, a comma, or a closing bracket or brace. *)
Definition value_end (s : string) : bool :=
  match s with
  | EmptyString => true
  | String c _ => Ascii.eqb c "," || Ascii.eqb c "]" || Ascii.eqb c "}"
  end.

(** The first character of a value's text: no white space and no
    closing bracket or brace. *)
Definition value_start (s : string) : bool :=
  match s with
  | EmptyString => false
  | String c _ =>
      negb (is_ws c) && negb (Ascii.eqb c "]") && negb (Ascii.eqb c "}")
  end.

(** [text] is read back as [v], whatever follows the value. *)
Definition reads_back (v : value) (text : string) : Prop :=
  value_start text = true ∧
  ∀ rest, value_end rest = true →
          ∃ f, parse_value f (text +:+ rest) = Parsed v rest.

(** The first character of a number's text. *)
Definition number_start (c : ascii) : bool := is_digit c || Ascii.eqb c "-".

(** A member's text is its quoted name, a colon and a text that reads
    back as its value. *)
Definition reads_back_member (kx : string * value) (m : string) : Prop :=
  ∃ t, m = quote kx.1 +:+ ":" +:+ t ∧ reads_back kx.2 t.

Definition insert_member (a : gmap string value) (kx : string * value)
  : gmap string value := <[kx.1 := kx.2]> a.

(** [x] serializes to a text that reads back as [x]. *)
Definition writes_back (x : value) : Prop :=
  ∃ t, serialize x = Return (Some t) ∧ reads_back x t.

(** JSON data: the values [JSON.stringify] and [JSON.parse] carry back
    and forth.  No [undefined] and no BigInt anywhere, numbers finite
    and in lowest terms, arrays without named properties. *)
Fixpoint json_data (v : value) : bool :=
  match v with
  | VUndefined | VBigInt _ => false
  | VNull | VBool _ | VStr _ => true
  | VNum x => is_finite x && canonical x
  | VArr l p =>
      forallb json_data l
      && match map_to_list p with [] => true | _ => false end
  | VObj p => map_fold (λ _ x acc, json_data x && acc) true p
  end.

(** Number of nodes of a value. *)
Fixpoint vsize (v : value) : nat :=
  match v with
  | VArr l p =>
      S (foldr (λ x acc, vsize x + acc) 0 l
         + map_fold (λ _ x acc, vsize x + acc) 0 p)
  | VObj p => S (map_fold (λ _ x acc, vsize x + acc) 0 p)
  | _ => 1
  end.

(** Values that are no object: their coercions cannot throw. *)
Definition is_primitive (v : value) : bool :=
  match v with
  | VArr _ _ | VObj _ => false
  | _ => true
  end.

(** Backends for the examples: November 2026, an empty store that takes
    every write, and one that refuses every write (a quota of zero). *)
Definition fresh_backend : world := World ∅ (λ _ _ _, true) [] 2026 10.

Definition full_backend : world := World ∅ (λ _ _ _, false) [] 2026 10.

Definition holding (w : world) (key text : string) : world :=
  with_items w (<[key := text]> (items w)).

(** The exception a failed store of [v] raises: that of the
    serialization, or the refusal of the backend. *)
Definition store_error (v : value) : exn :=
  match JSON.stringify v with
  | Throw e => e
  | Return _ => QuotaExceededError
  end.

(** Every escape [\uXXXX] of the text names a byte.  On such a text
    the parser of the model and [JSON.parse] agree: an escape above
    [\u00ff] is the one thing [JSON.parse] reads and the model has no
    string for. *)
Fixpoint byte_escapes (s : string) : bool :=
  match s with
  | EmptyString => true
  | String c r =>
      match r with
      | String u (String h1 (String h2 (String h3 (String h4 _)))) =>
          if Ascii.eqb c "\" && Ascii.eqb u "u" then
            match hex4 h1 h2 h3 h4 with
            | Some n => (n <? 256)%N
            | None => true
            end
          else true
      | _ => true
      end
      && byte_escapes r
  end.


(** ** Vocabulary of the further statements *)

(** The record [loadDues] seeds and falls back to. *)
Definition default_dues (w : world) : value :=
  VObj (<["monthlyFee" := num 2000]>
       (<["startMonth" := VStr (current_month w)]>
       (<["paymentsByUser" := empty_object]> ∅))).

(** The calls of the accessors. *)
Inductive call :=
| LoadBuildingsDB
| SaveBuildingsDB (rows : value)
| LoadUsersDB
| SaveUsersDB (rows : value)
| LoadDues (bid : string)
| SaveDues (bid : string) (obj : value)
| LoadItems (bid : string) (seedData : value)
| SaveItems (bid : string) (rows : value)
| LoadFirms (bid : string) (seedData : value)
| SaveFirms (bid : string) (firms : value)
| LoadBoardPosts (bid : string) (seedData : value)
| SaveBoardPosts (bid : string) (rows : value)
| LoadProposals (bid : string) (seedData : value)
| SaveProposals (bid : string) (rows : value)
| LoadOpeningBalance (bid : string)
| SaveOpeningBalance (bid : string) (val : value)
| LoadReadMap (bid kind : string)
| SaveReadMap (bid kind : string) (map : value).

Definition run (c : call) : js value :=
  match c with
  | LoadBuildingsDB => loadBuildingsDB
  | SaveBuildingsDB rows => saveBuildingsDB rows
  | LoadUsersDB => loadUsersDB
  | SaveUsersDB rows => saveUsersDB rows
  | LoadDues bid => loadDues bid
  | SaveDues bid obj => saveDues bid obj
  | LoadItems bid seedData => loadItems bid seedData
  | SaveItems bid rows => saveItems bid rows
  | LoadFirms bid seedData => loadFirms bid seedData
  | SaveFirms bid firms => saveFirms bid firms
  | LoadBoardPosts bid seedData => loadBoardPosts bid seedData
  | SaveBoardPosts bid rows => saveBoardPosts bid rows
  | LoadProposals bid seedData => loadProposals bid seedData
  | SaveProposals bid rows => saveProposals bid rows
  | LoadOpeningBalance bid => loadOpeningBalance bid
  | SaveOpeningBalance bid val => saveOpeningBalance bid val
  | LoadReadMap bid kind => loadReadMap bid kind
  | SaveReadMap bid kind map => saveReadMap bid kind map
  end.

(** The calls whose whole body runs under the [try] of the adapter or
    of [saveOpeningBalance]. *)
Definition guarded (c : call) : bool :=
  match c with
  | LoadDues _ | LoadOpeningBalance _ => false
  | _ => true
  end.

(** [saveOpeningBalance(bid, val)] cannot store: the coercion throws,
    or the backend refuses the text. *)
Definition balance_store_fails (w : world) (bid : string) (val : value) : Prop :=
  match ToNumber (or_else val (num 0)) with
  | Return n => accepts w (items w) (kOpeningBalance bid) (to_string n) = false
  | Throw _ => True
  end.

(** No white space anywhere in the text. *)
Fixpoint no_space (s : string) : bool :=
  match s with
  | EmptyString => true
  | String c r => negb (is_space c) && no_space r
  end.

(** The character [c] does not occur in the text. *)
Fixpoint lacks (c : ascii) (s : string) : bool :=
  match s with
  | EmptyString => true
  | String d r => negb (Ascii.eqb d c) && lacks c r
  end.

(** How often [c] occurs in the text. *)
Fixpoint occurrences (c : ascii) (s : string) : nat :=
  match s with
  | EmptyString => 0
  | String d r => (if Ascii.eqb d c then 1 else 0) + occurrences c r
  end.

(** The number a string of digits writes. *)
Definition digits_Z (s : string) : Z := Z.of_N (digits_value s).

(** A form field [{ value, name }] of two strings. *)
Definition form_field (name text : string) : value :=
  VObj (<["value" := VStr text]> (<["name" := VStr name]> ∅)).

(** Nothing but white space. *)
Definition is_blank (text : string) : bool := String.eqb (trim text) "".

(** The first field of a form that is blank. *)
Fixpoint first_blank (form : list (string * string)) : option string :=
  match form with
  | [] => None
  | (name, text) :: rest => if is_blank text then Some name else first_blank rest
  end.

(** ** Strings *)

#[local] Arguments String.append : simpl nomatch.

Lemma append_length (a b : string) :
  String.length (a +:+ b) = String.length a + String.length b.
Proof. induction a as [| c a IH]; simpl; [done | by rewrite IH]. Qed.

Lemma append_inv_head (p a b : string) : p +:+ a = p +:+ b → a = b.
Proof. induction p as [| c p IH]; simpl; [done |]. intros [= H]. auto. Qed.

Lemma append_inv_tail (a b t : string) : a +:+ t = b +:+ t → a = b.
Proof.
  revert b. induction a as [| c a IH]; intros [| c' b] H; simpl in H.
  - done.
  - apply (f_equal String.length) in H. simpl in H.
    rewrite append_length in H. lia.
  - apply (f_equal String.length) in H. simpl in H.
    rewrite append_length in H. lia.
  - injection H as -> H. f_equal. auto.
Qed.

Lemma append_assoc (a b c : string) : (a +:+ b) +:+ c = a +:+ b +:+ c.
Proof. induction a as [| x a IH]; simpl; [done | by rewrite IH]. Qed.

Lemma append_nil_r (a : string) : a +:+ "" = a.
Proof. induction a as [| x a IH]; simpl; [done | by rewrite IH]. Qed.

(** ** Digit strings *)

Lemma code_digit_char (d : N) : (d < 10)%N → code (digit_char d) = (48 + d)%N.
Proof.
  intros H. unfold code, digit_char. apply N_ascii_embedding. lia.
Qed.

Lemma is_digit_digit_char (d : N) : (d < 10)%N → is_digit (digit_char d) = true.
Proof.
  intros H. unfold is_digit. rewrite code_digit_char by done.
  apply andb_true_intro. split; apply N.leb_le; lia.
Qed.

Lemma digit_val_digit_char (d : N) : (d < 10)%N → digit_val (digit_char d) = d.
Proof. intros H. unfold digit_val. rewrite code_digit_char by done. lia. Qed.

Lemma digit_char_zero (d : N) :
  (d < 10)%N → d ≠ 0%N → Ascii.eqb (digit_char d) "0" = false.
Proof.
  intros H Hd. apply Ascii.eqb_neq. intros Heq.
  apply (f_equal code) in Heq. rewrite code_digit_char in Heq by done.
  change (code "0") with 48%N in Heq. lia.
Qed.

Lemma all_digits_app (a b : string) :
  all_digits (a +:+ b) = all_digits a && all_digits b.
Proof.
  induction a as [| c a IH]; simpl; [done |]. rewrite IH. by rewrite andb_assoc.
Qed.

Lemma span_digits_app (ds rest : string) :
  all_digits ds = true → digits_end rest = true →
  span_digits (ds +:+ rest) = (ds, rest).
Proof.
  intros Hd Hr. induction ds as [| c ds IH]; simpl in *.
  - destruct rest as [| c r]; [done |]. simpl in *.
    by destruct (is_digit c).
  - apply andb_prop in Hd as [-> Hd]. by rewrite IH.
Qed.

Lemma digits_value_acc_app (a b : string) (acc : N) :
  digits_value_acc (a +:+ b) acc = digits_value_acc b (digits_value_acc a acc).
Proof. revert acc. induction a as [| c a IH]; intros acc; simpl; [done | apply IH]. Qed.

Lemma all_digits_zeros (n : nat) : all_digits (zeros n) = true.
Proof. induction n; simpl; [done | done]. Qed.

Lemma digits_value_acc_zeros (n : nat) (acc : N) :
  digits_value_acc (zeros n) acc = (acc * 10 ^ N.of_nat n)%N.
Proof.
  revert acc. induction n as [| n IH]; intros acc.
  - simpl. lia.
  - cbn [zeros digits_value_acc]. rewrite IH.
    change (digit_val "0") with 0%N.
    rewrite Nat2N.inj_succ, N.pow_succ_r'. lia.
Qed.

Lemma length_zeros (n : nat) : String.length (zeros n) = n.
Proof. induction n; simpl; [done | by f_equal]. Qed.

Lemma take_drop (n : nat) (s : string) : take n s +:+ drop n s = s.
Proof.
  revert s. induction n as [| n IH]; intros [| c s]; simpl; try done.
  by rewrite IH.
Qed.

Lemma length_take (n : nat) (s : string) :
  n ≤ String.length s → String.length (take n s) = n.
Proof.
  revert s. induction n as [| n IH]; intros [| c s]; simpl; try done; try lia.
  intros H. f_equal. apply IH. lia.
Qed.

Lemma length_drop (n : nat) (s : string) :
  String.length (drop n s) = String.length s - n.
Proof.
  revert s. induction n as [| n IH]; intros [| c s]; simpl; try done.
Qed.

Lemma all_digits_take (n : nat) (s : string) :
  all_digits s = true → all_digits (take n s) = true.
Proof.
  revert s. induction n as [| n IH]; intros [| c s]; simpl; try done.
  intros [-> H]%andb_prop. simpl. by apply IH.
Qed.

Lemma all_digits_drop (n : nat) (s : string) :
  all_digits s = true → all_digits (drop n s) = true.
Proof.
  revert s. induction n as [| n IH]; intros [| c s]; simpl; try done.
  intros [_ H]%andb_prop. by apply IH.
Qed.

Lemma to_digits_S (f : nat) (n : N) (acc : string) :
  to_digits (S f) n acc =
  if (n / 10 =? 0)%N then String (digit_char (n mod 10)) acc
  else to_digits f (n / 10)%N (String (digit_char (n mod 10)) acc).
Proof. reflexivity. Qed.

(** What [to_digits] produces in front of its accumulator. *)
Lemma to_digits_spec (f : nat) (n : N) (acc : string) :
  (n < 2 ^ N.of_nat (S f))%N →
  ∃ ds, to_digits (S f) n acc = ds +:+ acc ∧
        all_digits ds = true ∧
        digits_value ds = n ∧
        1 ≤ String.length ds ∧
        (n ≠ 0%N → leading_nonzero ds = true).
Proof.
  revert n acc. induction f as [| f IH]; intros n acc Hn;
    rewrite to_digits_S; destruct (N.eqb_spec (n / 10) 0) as [Hq | Hq].
  1, 3: exists (String (digit_char (n mod 10)) "");
    assert (n mod 10 = n)%N as Hm
      by (apply N.mod_small; apply N.div_small_iff in Hq; lia);
    rewrite Hm;
    assert (n < 10)%N by (apply N.div_small_iff in Hq; lia);
    split; [done |]; split; [simpl; by rewrite is_digit_digit_char |];
    split; [unfold digits_value; simpl; rewrite digit_val_digit_char by done; lia |];
    split; [simpl; lia |];
    intros Hne; simpl; by rewrite digit_char_zero.
  - exfalso. apply Hq. apply N.div_small. simpl in Hn. lia.
  - destruct (IH (n / 10)%N (String (digit_char (n mod 10)) acc))
      as (ds & Heq & Hall & Hval & Hlen & Hlead).
    { rewrite Nat2N.inj_succ, N.pow_succ_r' in Hn.
      apply N.Div0.div_lt_upper_bound. lia. }
    exists (ds +:+ String (digit_char (n mod 10)) "").
    assert (n mod 10 < 10)%N by (apply N.mod_lt; lia).
    split; [by rewrite Heq, append_assoc |].
    split; [rewrite all_digits_app, Hall; simpl; by rewrite is_digit_digit_char |].
    split.
    { unfold digits_value in *. rewrite digits_value_acc_app, Hval. simpl.
      rewrite digit_val_digit_char by done.
      rewrite (N.div_mod n 10) at 3 by lia. lia. }
    split; [rewrite append_length; lia |].
    intros _. specialize (Hlead Hq). destruct ds; [done | done].
Qed.

Lemma N_to_string_spec (n : N) :
  all_digits (N_to_string n) = true ∧
  digits_value (N_to_string n) = n ∧
  1 ≤ String.length (N_to_string n) ∧
  (n ≠ 0%N → leading_nonzero (N_to_string n) = true).
Proof.
  unfold N_to_string.
  destruct (to_digits_spec (N.to_nat (N.log2 n)) n "") as (ds & -> & H).
  - rewrite Nat2N.inj_succ, N2Nat.id.
    destruct (N.eq_dec n 0%N) as [-> | Hn]; [done |].
    apply N.log2_spec. lia.
  - by rewrite append_nil_r.
Qed.

(** ** Numbers through [JSON.parse] *)

Lemma strip10_pow (j fuel : nat) (m e : Z) :
  j ≤ fuel → (m mod 10 ≠ 0)%Z →
  strip10 fuel (m * 10 ^ Z.of_nat j) e = (m, (e + Z.of_nat j)%Z).
Proof.
  revert fuel e. induction j as [| j IH]; intros fuel e Hf Hm.
  - rewrite Z.mul_1_r, Z.add_0_r. destruct fuel; simpl; [done |].
    by destruct (Z.eqb_spec (m mod 10) 0).
  - destruct fuel as [| fuel]; [lia |]. cbn [strip10].
    rewrite Nat2Z.inj_succ, Z.pow_succ_r by lia.
    replace (m * (10 * 10 ^ Z.of_nat j))%Z with (m * 10 ^ Z.of_nat j * 10)%Z by lia.
    rewrite Z.mod_mul by lia. simpl (0 =? 0)%Z. cbv iota.
    rewrite Z.div_mul by lia. rewrite IH by (done || lia). f_equal. lia.
Qed.

Lemma fin_pow (m e : Z) (j : nat) :
  (m mod 10 ≠ 0)%Z → fin (m * 10 ^ Z.of_nat j) e = Fin m (e + Z.of_nat j).
Proof.
  intros Hm. unfold fin.
  assert (m ≠ 0)%Z by (intros ->; done).
  assert (0 < 10 ^ Z.of_nat j)%Z by (apply Z.pow_pos_nonneg; lia).
  destruct (Z.eqb_spec (m * 10 ^ Z.of_nat j) 0) as [Hz | _]; [nia |].
  rewrite strip10_pow; [done | | done].
  apply Nat2Z.inj_le. rewrite Z2Nat.id by apply Z.log2_nonneg.
  transitivity (Z.log2 (2 ^ Z.of_nat j)).
  - rewrite Z.log2_pow2; lia.
  - apply Z.log2_le_mono. rewrite Z.abs_mul.
    assert (2 ^ Z.of_nat j ≤ 10 ^ Z.of_nat j)%Z
      by (apply Z.pow_le_mono_l; lia).
    rewrite (Z.abs_eq (10 ^ _)) by lia. nia.
Qed.

Lemma strip10_lowest (fuel : nat) (m e : Z) :
  (m ≠ 0)%Z → (Z.abs m < 2 ^ Z.of_nat (S fuel))%Z →
  ((strip10 fuel m e).1 mod 10 ≠ 0)%Z.
Proof.
  revert m e. induction fuel as [| fuel IH]; intros m e Hm Hb.
  - simpl. change (2 ^ Z.of_nat 1)%Z with 2%Z in Hb.
    assert (m = 1 ∨ m = -1)%Z as [-> | ->] by lia; done.
  - cbn [strip10]. destruct (Z.eqb_spec (m mod 10) 0) as [H0 | H0]; [| done].
    apply Z.mod_divide in H0 as [k ->]; [| lia].
    rewrite Z.div_mul by lia. apply IH; [lia |].
    rewrite Nat2Z.inj_succ, Z.pow_succ_r in Hb by lia. lia.
Qed.

(** [fin] yields numbers in lowest terms. *)
Lemma fin_lowest_terms (m e : Z) : canonical (fin m e) = true.
Proof.
  unfold fin. destruct (Z.eqb_spec m 0) as [-> | Hm]; [done |].
  pose proof (strip10_lowest (Z.to_nat (Z.log2 (Z.abs m))) m e Hm) as H.
  destruct (strip10 _ m e) as [m' e']. simpl in *.
  assert (m' mod 10 ≠ 0)%Z as H'.
  { apply H. rewrite Nat2Z.inj_succ, Z2Nat.id by apply Z.log2_nonneg.
    apply Z.log2_spec. lia. }
  destruct (Z.eqb_spec m' 0) as [-> | _]; [done |].
  by destruct (Z.eqb_spec (m' mod 10) 0).
Qed.

Lemma fin_canonical (m e : Z) : canonical (Fin m e) = true → fin m e = Fin m e.
Proof.
  unfold canonical. destruct (Z.eqb_spec m 0) as [-> | Hm].
  - intros ->%Z.eqb_eq. done.
  - intros Hc. rewrite <- (Z.mul_1_r m) at 1. change 1%Z with (10 ^ Z.of_nat 0)%Z.
    rewrite fin_pow; [by rewrite Z.add_0_r |].
    by destruct (Z.eqb_spec (m mod 10) 0).
Qed.

Lemma is_digit_not (c d : ascii) :
  is_digit c = true → is_digit d = false → Ascii.eqb c d = false.
Proof.
  intros Hc Hd. apply Ascii.eqb_neq. intros ->. congruence.
Qed.

Lemma digits_end_number_end (s : string) : number_end s = true → digits_end s = true.
Proof.
  destruct s as [| c s]; [done |]. simpl. by destruct (is_digit c).
Qed.

Lemma expect_digit (c d : ascii) (s : string) :
  is_digit d = true → is_digit c = false → expect c (String d s) = None.
Proof. intros Hd Hc. simpl. by rewrite (is_digit_not d c). Qed.

(** The parts of a number token, read back one after the other. *)
Lemma parse_fraction_none (rest : string) :
  number_end rest = true → parse_fraction rest = Some (EmptyString, rest).
Proof.
  destruct rest as [| c r]; [done |]. unfold parse_fraction. simpl.
  destruct (is_digit c), (Ascii.eqb c "."); done.
Qed.

Lemma parse_fraction_some (fp rest : string) :
  all_digits fp = true → 1 ≤ String.length fp → digits_end rest = true →
  parse_fraction ("." +:+ fp +:+ rest) = Some (fp, rest).
Proof.
  intros Hd Hl Hr. unfold parse_fraction. simpl.
  rewrite span_digits_app by done. destruct fp; [simpl in Hl; lia | done].
Qed.

Lemma parse_exponent_none (rest : string) :
  number_end rest = true → parse_exponent rest = Some (0%Z, rest).
Proof.
  destruct rest as [| c r]; [done |]. simpl.
  destruct (is_digit c), (Ascii.eqb c "."), (Ascii.eqb c "e"), (Ascii.eqb c "E"); done.
Qed.

Lemma parse_exponent_some (x : Z) (rest : string) :
  digits_end rest = true →
  parse_exponent
    ("e" +:+ (if (x <? 0)%Z then "-" else "+") +:+ N_to_string (Z.abs_N x) +:+ rest)
  = Some (x, rest).
Proof.
  intros Hr. destruct (N_to_string_spec (Z.abs_N x)) as (Hd & Hv & Hl & _).
  unfold parse_exponent. simpl.
  destruct (Z.ltb_spec x 0); simpl; rewrite span_digits_app by done;
    (destruct (N_to_string (Z.abs_N x)) eqn:E; [simpl in Hl; lia |]);
    rewrite Hv; unfold signed; do 2 f_equal; lia.
Qed.

Lemma parse_sign_digit (c : ascii) (s : string) :
  is_digit c = true → parse_sign (String c s) = (false, String c s).
Proof. intros H. unfold parse_sign. by rewrite (expect_digit "-" c). Qed.

Lemma parse_number_parts
  (neg : bool) (ip tail fp tail' rest : string) (x : Z) :
  all_digits ip = true → 1 ≤ String.length ip →
  leading_nonzero ip = true ∨ String.length ip = 1 →
  digits_end tail = true →
  parse_fraction tail = Some (fp, tail') →
  parse_exponent tail' = Some (x, rest) →
  parse_number ((if neg then "-" else "") +:+ ip +:+ tail)
  = Some (fin (signed neg (digits_value (ip +:+ fp)))
              (x - Z.of_nat (String.length fp)), rest).
Proof.
  intros Hd Hl Hz Ht Hf Hx. unfold parse_number.
  assert (parse_sign ((if neg then "-" else "") +:+ ip +:+ tail)
          = (neg, ip +:+ tail)) as ->.
  { destruct neg; [done |]. destruct ip as [| c ip]; [simpl in Hl; lia |].
    simpl in Hd. apply andb_prop in Hd as [Hc _]. by apply parse_sign_digit. }
  rewrite span_digits_app by done.
  destruct (Nat.eqb_spec (String.length ip) 0) as [? | _]; [lia |].
  assert (negb (leading_nonzero ip) && negb (String.length ip =? 1) = false)
    as ->.
  { destruct Hz as [-> | ->]; [done | by rewrite andb_false_r]. }
  by rewrite Hf, Hx.
Qed.

Lemma signed_abs (m : Z) (n : N) :
  signed (m <? 0)%Z (Z.abs_N m * n) = (m * Z.of_N n)%Z.
Proof.
  unfold signed. rewrite N2Z.inj_mul, N2Z.inj_abs_N.
  destruct (Z.ltb_spec m 0); lia.
Qed.

Lemma leading_nonzero_app (a b : string) :
  leading_nonzero a = true → leading_nonzero (a +:+ b) = true.
Proof. by destruct a. Qed.

Lemma leading_nonzero_take (n : nat) (s : string) :
  1 ≤ n → leading_nonzero s = true → leading_nonzero (take n s) = true.
Proof. destruct n, s; simpl; try done; lia. Qed.

Lemma digits_value_zeros_app (n : nat) (s : string) :
  digits_value (String "0" (zeros n +:+ s)) = digits_value s.
Proof.
  unfold digits_value. change (String "0" (zeros n +:+ s)) with (zeros (S n) +:+ s).
  by rewrite digits_value_acc_app, digits_value_acc_zeros.
Qed.

Lemma of_N_pow10 (j : nat) : Z.of_N (10 ^ N.of_nat j) = (10 ^ Z.of_nat j)%Z.
Proof. rewrite N2Z.inj_pow. by rewrite nat_N_Z. Qed.

(** A finite number in lowest terms, written by [Number::toString], is
    read back by the JSON number grammar. *)
Lemma parse_number_to_string (m e : Z) (rest : string) :
  canonical (Fin m e) = true → number_end rest = true →
  parse_number (to_string (Fin m e) +:+ rest) = Some (Fin m e, rest).
Proof.
  intros Hc Hr. pose proof (digits_end_number_end rest Hr) as Hr'.
  unfold to_string. destruct (Z.eqb_spec m 0) as [-> | Hm].
  { simpl in Hc. apply Z.eqb_eq in Hc as ->.
    change ("0" +:+ rest) with ("" +:+ "0" +:+ rest).
    rewrite (parse_number_parts false "0" rest "" rest rest 0); try done.
    - by right.
    - by apply parse_fraction_none.
    - by apply parse_exponent_none. }
  assert (m mod 10 ≠ 0)%Z as Hm10.
  { unfold canonical in Hc. destruct (Z.eqb_spec m 0); [done |].
    by destruct (Z.eqb_spec (m mod 10) 0). }
  unfold finite_to_string.
  destruct (N_to_string_spec (Z.abs_N m)) as (Hd & Hv & Hl & Hz).
  specialize (Hz ltac:(lia)).
  set (ds := N_to_string (Z.abs_N m)) in *.
  set (k := Z.of_nat (String.length ds)).
  set (n := (k + e)%Z).
  assert (1 ≤ k)%Z as Hk by (unfold k; lia).
  match goal with
  | |- parse_number ((if _ then "-" +:+ ?b else _) +:+ _) = _ =>
      assert ((if (m <? 0)%Z then "-" +:+ b else b)
              = (if (m <? 0)%Z then "-" else "") +:+ b) as ->
        by (by destruct (m <? 0)%Z)
  end.
  rewrite append_assoc.
  destruct ((k <=? n)%Z && (n <=? 21)%Z) eqn:EA;
    [| destruct ((0 <? n)%Z && (n <=? 21)%Z) eqn:EB;
       [| destruct ((-6 <? n)%Z && (n <=? 0)%Z) eqn:EC]].
  - (* digits followed by zeros *)
    apply andb_prop in EA as [H1%Z.leb_le H2%Z.leb_le].
    rewrite (parse_number_parts _ _ rest "" rest rest 0).
    + f_equal. f_equal. rewrite append_nil_r. unfold digits_value.
      rewrite digits_value_acc_app, digits_value_acc_zeros.
      fold (digits_value ds). rewrite Hv, signed_abs, of_N_pow10.
      rewrite fin_pow by done. f_equal. simpl. unfold n in *. lia.
    + by rewrite all_digits_app, Hd, all_digits_zeros.
    + rewrite append_length. lia.
    + left. by apply leading_nonzero_app.
    + done.
    + by apply parse_fraction_none.
    + by apply parse_exponent_none.
  - (* a point inside the digits *)
    apply andb_prop in EB as [H1%Z.ltb_lt H2%Z.leb_le].
    assert (n < k)%Z as H3.
    { destruct (Z.leb_spec k n); [| done]. simpl in EA.
      apply Z.leb_gt in EA. lia. }
    rewrite !append_assoc.
    rewrite (parse_number_parts _ _ _ (drop (Z.to_nat n) ds) rest rest 0).
    + f_equal. f_equal. rewrite take_drop, Hv.
      rewrite <- (N.mul_1_r (Z.abs_N m)), signed_abs, Z.mul_1_r.
      rewrite length_drop. 
      replace (0 - Z.of_nat (String.length ds - Z.to_nat n))%Z with e
        by (unfold n, k in *; lia).
      rewrite <- (Z.mul_1_r m) at 1. change 1%Z with (10 ^ Z.of_nat 0)%Z.
      rewrite fin_pow by done. f_equal. lia.
    + by apply all_digits_take.
    + rewrite length_take; unfold k in *; lia.
    + left. apply leading_nonzero_take; [lia | done].
    + done.
    + apply parse_fraction_some; [by apply all_digits_drop | | done].
      rewrite length_drop. unfold k in *. lia.
    + by apply parse_exponent_none.
  - (* zeros between the point and the digits *)
    apply andb_prop in EC as [H1%Z.ltb_lt H2%Z.leb_le].
    change ("0." +:+ zeros (Z.to_nat (- n)) +:+ ds)
      with ("0" +:+ "." +:+ zeros (Z.to_nat (- n)) +:+ ds).
    rewrite !append_assoc.
    rewrite <- (append_assoc (zeros _) ds rest).
    rewrite (parse_number_parts _ "0" _ (zeros (Z.to_nat (- n)) +:+ ds) rest rest 0).
    + f_equal. f_equal. 
      change ("0" +:+ zeros (Z.to_nat (- n)) +:+ ds)
        with (String "0" (zeros (Z.to_nat (- n)) +:+ ds)).
      rewrite digits_value_zeros_app, Hv.
      rewrite <- (N.mul_1_r (Z.abs_N m)), signed_abs, Z.mul_1_r.
      rewrite append_length, length_zeros.
      replace (0 - Z.of_nat (Z.to_nat (- n) + String.length ds))%Z with e
        by (unfold n, k in *; lia).
      rewrite <- (Z.mul_1_r m) at 1. change 1%Z with (10 ^ Z.of_nat 0)%Z.
      rewrite fin_pow by done. f_equal. lia.
    + done.
    + done.
    + by right.
    + done.
    + apply parse_fraction_some; [| | done].
      * by rewrite all_digits_app, all_digits_zeros.
      * rewrite append_length. lia.
    + by apply parse_exponent_none.
  - (* exponent notation *)
    destruct (Z.eqb_spec k 1) as [Hk1 | Hk1].
    + rewrite !append_assoc.
      erewrite (parse_number_parts _ ds _ "" _ rest (n - 1)).
      * f_equal. f_equal. rewrite append_nil_r, Hv.
        rewrite <- (N.mul_1_r (Z.abs_N m)), signed_abs, Z.mul_1_r.
        replace (n - 1 - Z.of_nat (String.length ""))%Z with e
          by (unfold n in *; simpl; lia).
        rewrite <- (Z.mul_1_r m) at 1. change 1%Z with (10 ^ Z.of_nat 0)%Z.
        rewrite fin_pow by done. f_equal. lia.
      * done.
      * lia.
      * right. unfold k in *. lia.
      * done.
      * reflexivity.
      * by apply parse_exponent_some.
    + rewrite !append_assoc.
      erewrite (parse_number_parts _ (take 1 ds) _ (drop 1 ds) _ rest (n - 1)).
      * f_equal. f_equal. rewrite take_drop, Hv.
        rewrite <- (N.mul_1_r (Z.abs_N m)), signed_abs, Z.mul_1_r.
        rewrite length_drop.
        replace (n - 1 - Z.of_nat (String.length ds - 1))%Z with e
          by (unfold n, k in *; lia).
        rewrite <- (Z.mul_1_r m) at 1. change 1%Z with (10 ^ Z.of_nat 0)%Z.
        rewrite fin_pow by done. f_equal. lia.
      * by apply all_digits_take.
      * rewrite length_take; lia.
      * left. by apply leading_nonzero_take.
      * done.
      * apply parse_fraction_some; [by apply all_digits_drop | | done].
        rewrite length_drop. unfold k in *. lia.
      * by apply parse_exponent_some.
Qed.

(** ** Strings through [JSON.parse] *)

Lemma parse_string_quote_char (c : ascii) (tail : string) :
  parse_string (quote_char c +:+ tail)
  = match parse_string tail with
    | Some (t, r) => Some (String c t, r)
    | None => None
    end.
Proof. destruct c as [[] [] [] [] [] [] [] []]; reflexivity. Qed.

Lemma parse_string_quote_body (s rest : string) :
  parse_string (quote_body s +:+ String dquote rest) = Some (s, rest).
Proof.
  induction s as [| c s IH]; [reflexivity |].
  cbn [quote_body]. by rewrite append_assoc, parse_string_quote_char, IH.
Qed.

Lemma quote_shape (s rest : string) :
  quote s +:+ rest = String dquote (quote_body s +:+ String dquote rest).
Proof. unfold quote. simpl. by rewrite append_assoc. Qed.

(** ** The fuel of the parser *)

Lemma parse_value_S (f : nat) (s : string) :
  parse_value (S f) s =
  match skip_ws s with
  | EmptyString => Bad
  | String c r =>
      if Ascii.eqb c "{" then
        match expect "}" (skip_ws r) with
        | Some r' => Parsed (VObj ∅) r'
        | None => parse_members f r ∅
        end
      else if Ascii.eqb c "[" then
        match expect "]" (skip_ws r) with
        | Some r' => Parsed (VArr [] ∅) r'
        | None => parse_elements f r []
        end
      else if Ascii.eqb c dquote then
        match parse_string r with
        | Some (t, r') => Parsed (VStr t) r'
        | None => Bad
        end
      else if Ascii.eqb c "n" then parse_literal "null" VNull (String c r)
      else if Ascii.eqb c "t" then parse_literal "true" (VBool true) (String c r)
      else if Ascii.eqb c "f" then parse_literal "false" (VBool false) (String c r)
      else
        match parse_number (String c r) with
        | Some (x, r') => Parsed (VNum x) r'
        | None => Bad
        end
  end.
Proof. reflexivity. Qed.

Lemma parse_elements_S (f : nat) (s : string) (acc : list value) :
  parse_elements (S f) s acc =
  match parse_value f s with
  | Parsed v r =>
      match expect "," (skip_ws r) with
      | Some r' => parse_elements f r' (v :: acc)
      | None =>
          match expect "]" (skip_ws r) with
          | Some r' => Parsed (VArr (rev (v :: acc)) ∅) r'
          | None => Bad
          end
      end
  | Bad => Bad
  | OutOfFuel => OutOfFuel
  end.
Proof. reflexivity. Qed.

Lemma parse_members_S (f : nat) (s : string) (acc : gmap string value) :
  parse_members (S f) s acc =
  match expect dquote (skip_ws s) with
  | Some r =>
      match parse_string r with
      | Some (k, r1) =>
          match expect ":" (skip_ws r1) with
          | Some r2 =>
              match parse_value f r2 with
              | Parsed v r3 =>
                  match expect "," (skip_ws r3) with
                  | Some r4 => parse_members f r4 (<[k := v]> acc)
                  | None =>
                      match expect "}" (skip_ws r3) with
                      | Some r4 => Parsed (VObj (<[k := v]> acc)) r4
                      | None => Bad
                      end
                  end
              | Bad => Bad
              | OutOfFuel => OutOfFuel
              end
          | None => Bad
          end
      | None => Bad
      end
  | None => Bad
  end.
Proof. reflexivity. Qed.

(** More fuel does not change an outcome that did not run out. *)
Lemma parse_fuel_step (f : nat) :
  (∀ s, parse_value f s ≠ OutOfFuel → parse_value (S f) s = parse_value f s) ∧
  (∀ s acc, parse_elements f s acc ≠ OutOfFuel →
            parse_elements (S f) s acc = parse_elements f s acc) ∧
  (∀ s acc, parse_members f s acc ≠ OutOfFuel →
            parse_members (S f) s acc = parse_members f s acc).
Proof.
  induction f as [| f (IHv & IHe & IHm)]; [by repeat split |].
  split; [| split].
  - intros s. rewrite (parse_value_S (S f)), (parse_value_S f).
    destruct (skip_ws s) as [| c r]; [done |].
    destruct (Ascii.eqb c "{").
    { destruct (expect "}" (skip_ws r)); [done | apply IHm]. }
    destruct (Ascii.eqb c "[").
    { destruct (expect "]" (skip_ws r)); [done | apply IHe]. }
    done.
  - intros s acc. rewrite (parse_elements_S (S f)), (parse_elements_S f).
    intros H. rewrite IHv by (intros E; by rewrite E in H).
    destruct (parse_value f s) as [v r | |]; [| done | done].
    destruct (expect "," (skip_ws r)); [by apply IHe | done].
  - intros s acc. rewrite (parse_members_S (S f)), (parse_members_S f).
    destruct (expect dquote (skip_ws s)) as [r |]; [| done].
    destruct (parse_string r) as [[k r1] |]; [| done].
    destruct (expect ":" (skip_ws r1)) as [r2 |]; [| done].
    intros H. rewrite IHv by (intros E; by rewrite E in H).
    destruct (parse_value f r2) as [v r3 | |]; [| done | done].
    destruct (expect "," (skip_ws r3)); [by apply IHm | done].
Qed.

Lemma parse_value_more_fuel (f g : nat) (s : string) (v : value) (r : string) :
  parse_value f s = Parsed v r → f ≤ g → parse_value g s = Parsed v r.
Proof.
  intros H Hle. induction Hle as [| g Hle IH]; [done |].
  destruct (parse_fuel_step g) as [Hv _]. rewrite Hv; [done | by rewrite IH].
Qed.

Lemma parse_value_less_fuel (f g : nat) (s : string) :
  parse_value f s ≠ OutOfFuel → f ≤ g → parse_value g s = parse_value f s.
Proof.
  intros H Hle. induction Hle as [| g Hle IH]; [done |].
  destruct (parse_fuel_step g) as [Hv _]. rewrite Hv; [done | by rewrite IH].
Qed.

(** *** What a step consumes *)

Lemma skip_ws_length (s : string) : String.length (skip_ws s) ≤ String.length s.
Proof.
  induction s as [| c s IH]; simpl; [done |].
  destruct (is_ws c); simpl; lia.
Qed.

Lemma expect_length (c : ascii) (s r : string) :
  expect c s = Some r → String.length s = S (String.length r).
Proof.
  destruct s as [| d s]; simpl; [done |].
  destruct (Ascii.eqb d c); [| done]. by intros [= ->].
Qed.

Lemma strip_prefix_length (p s r : string) :
  strip_prefix p s = Some r →
  String.length s = String.length p + String.length r.
Proof.
  revert s. induction p as [| a p IH]; intros [| b s]; simpl; try done.
  - by intros [= <-].
  - by intros [= <-].
  - destruct (Ascii.eqb a b); [| done]. intros H. by rewrite (IH s H).
Qed.

Lemma span_digits_length (s d r : string) :
  span_digits s = (d, r) →
  String.length s = String.length d + String.length r.
Proof.
  revert d r. induction s as [| c s IH]; intros d r; simpl.
  - by intros [= <- <-].
  - destruct (is_digit c).
    + destruct (span_digits s) as [d' r'] eqn:E. intros [= <- <-]. simpl.
      by rewrite (IH d' r').
    + by intros [= <- <-].
Qed.

Lemma parse_string_length_aux (n : nat) (s t r : string) :
  String.length s ≤ n →
  parse_string s = Some (t, r) → String.length r < String.length s.
Proof.
  revert s t r. induction n as [| n IH]; intros s t r Hle;
    (destruct s as [| c s]; [done |]); [simpl in Hle; lia |].
  assert (∀ s' t' r', String.length s' ≤ String.length s →
            parse_string s' = Some (t', r') →
            String.length r' < String.length s') as IH'.
  { intros s' t' r' Hs'. apply IH. simpl in Hle. lia. }
  clear IH. rename IH' into IH. cbn [parse_string].
  destruct (Ascii.eqb c dquote); [intros [= <- <-]; simpl; lia |].
  destruct (Ascii.eqb c "\").
  - destruct s as [| e s1]; [done |].
    destruct (Ascii.eqb e "u").
    + destruct s1 as [| h1 [| h2 [| h3 [| h4 r2]]]]; try done.
      destruct (hex4 h1 h2 h3 h4) as [m |]; [| done].
      destruct (m <? 256)%N; [| done].
      destruct (parse_string r2) as [[t' r'] |] eqn:E; [| done].
      intros [= <- <-]. apply IH in E; simpl in *; lia.
    + destruct (unescape e); [| done].
      destruct (parse_string s1) as [[t' r'] |] eqn:E; [| done].
      intros [= <- <-]. apply IH in E; simpl in *; lia.
  - destruct (code c <? 32)%N; [done |].
    destruct (parse_string s) as [[t' r'] |] eqn:E; [| done].
    intros [= <- <-]. apply IH in E; simpl in *; lia.
Qed.

Lemma parse_string_length (s t r : string) :
  parse_string s = Some (t, r) → String.length r < String.length s.
Proof. by apply (parse_string_length_aux (String.length s)). Qed.

Lemma parse_number_length (s : string) (x : number) (r : string) :
  parse_number s = Some (x, r) → String.length r < String.length s.
Proof.
  unfold parse_number.
  destruct (parse_sign s) as [neg s1] eqn:Es.
  assert (String.length s1 ≤ String.length s) as Hs1.
  { unfold parse_sign in Es. destruct (expect "-" s) as [r' |] eqn:E.
    - injection Es as <- <-. apply expect_length in E. lia.
    - by injection Es as <- <-. }
  destruct (span_digits s1) as [ip r1] eqn:Ei.
  apply span_digits_length in Ei.
  destruct (Nat.eqb_spec (String.length ip) 0); [done |].
  destruct (negb (leading_nonzero ip) && negb (String.length ip =? 1)); [done |].
  destruct (parse_fraction r1) as [[fp r2] |] eqn:Ef; [| done].
  assert (String.length r2 ≤ String.length r1) as Hr2.
  { unfold parse_fraction in Ef. destruct (expect "." r1) as [r' |] eqn:E.
    - apply expect_length in E.
      destruct (span_digits r') as [d r''] eqn:Ed.
      apply span_digits_length in Ed.
      destruct d; [done |]. injection Ef as <- <-. simpl in *. lia.
    - by injection Ef as <- <-. }
  destruct (parse_exponent r2) as [[y r4] |] eqn:Ee; [| done].
  assert (String.length r4 ≤ String.length r2) as Hr4.
  { unfold parse_exponent in Ee. destruct r2 as [| c r2']; [by injection Ee as <- <- |].
    destruct (Ascii.eqb c "e" || Ascii.eqb c "E"); [| by injection Ee as <- <-].
    destruct (expect "-" r2') as [r' |] eqn:E1.
    - apply expect_length in E1.
      destruct (span_digits r') as [d r''] eqn:Ed. apply span_digits_length in Ed.
      destruct d; [done |]. injection Ee as <- <-. simpl in *. lia.
    - destruct (expect "+" r2') as [r' |] eqn:E2.
      + apply expect_length in E2.
        destruct (span_digits r') as [d r''] eqn:Ed. apply span_digits_length in Ed.
        destruct d; [done |]. injection Ee as <- <-. simpl in *. lia.
      + destruct (span_digits r2') as [d r''] eqn:Ed. apply span_digits_length in Ed.
        destruct d; [done |]. injection Ee as <- <-. simpl in *. lia. }
  intros [= <- <-]. lia.
Qed.

Lemma parse_literal_length (word : string) (v v' : value) (s r : string) :
  1 ≤ String.length word →
  parse_literal word v s = Parsed v' r → String.length r < String.length s.
Proof.
  unfold parse_literal. intros Hw.
  destruct (strip_prefix word s) as [r' |] eqn:E; [| done].
  intros [= <- <-]. apply strip_prefix_length in E. lia.
Qed.

Lemma parse_consumes (f : nat) :
  (∀ s v r, parse_value f s = Parsed v r → String.length r < String.length s) ∧
  (∀ s acc v r, parse_elements f s acc = Parsed v r →
                String.length r < String.length s) ∧
  (∀ s acc v r, parse_members f s acc = Parsed v r →
                String.length r < String.length s).
Proof.
  induction f as [| f (IHv & IHe & IHm)]; [by repeat split |].
  split; [| split].
  - intros s v r. rewrite parse_value_S.
    pose proof (skip_ws_length s) as Hs.
    destruct (skip_ws s) as [| c r0]; [done |]. simpl in Hs.
    pose proof (skip_ws_length r0) as Hr0.
    destruct (Ascii.eqb c "{").
    { destruct (expect "}" (skip_ws r0)) as [r' |] eqn:E.
      - intros [= <- <-]. apply expect_length in E. lia.
      - intros H%IHm. lia. }
    destruct (Ascii.eqb c "[").
    { destruct (expect "]" (skip_ws r0)) as [r' |] eqn:E.
      - intros [= <- <-]. apply expect_length in E. lia.
      - intros H%IHe. lia. }
    destruct (Ascii.eqb c dquote).
    { destruct (parse_string r0) as [[t r'] |] eqn:E; [| done].
      intros [= <- <-]. apply parse_string_length in E. lia. }
    destruct (Ascii.eqb c "n").
    { intros H%parse_literal_length; simpl in *; lia. }
    destruct (Ascii.eqb c "t").
    { intros H%parse_literal_length; simpl in *; lia. }
    destruct (Ascii.eqb c "f").
    { intros H%parse_literal_length; simpl in *; lia. }
    destruct (parse_number (String c r0)) as [[x r'] |] eqn:E; [| done].
    intros [= <- <-]. apply parse_number_length in E. simpl in *. lia.
  - intros s acc v r. rewrite parse_elements_S.
    destruct (parse_value f s) as [v1 r1 | |] eqn:E1; [| done | done].
    apply IHv in E1. pose proof (skip_ws_length r1) as Hr1.
    destruct (expect "," (skip_ws r1)) as [r' |] eqn:E2.
    { apply expect_length in E2. intros H%IHe. lia. }
    destruct (expect "]" (skip_ws r1)) as [r' |] eqn:E3; [| done].
    apply expect_length in E3. intros [= <- <-]. lia.
  - intros s acc v r. rewrite parse_members_S.
    pose proof (skip_ws_length s) as Hs.
    destruct (expect dquote (skip_ws s)) as [r0 |] eqn:E0; [| done].
    apply expect_length in E0.
    destruct (parse_string r0) as [[k r1] |] eqn:E1; [| done].
    apply parse_string_length in E1. pose proof (skip_ws_length r1) as Hr1.
    destruct (expect ":" (skip_ws r1)) as [r2 |] eqn:E2; [| done].
    apply expect_length in E2.
    destruct (parse_value f r2) as [v3 r3 | |] eqn:E3; [| done | done].
    apply IHv in E3. pose proof (skip_ws_length r3) as Hr3.
    destruct (expect "," (skip_ws r3)) as [r4 |] eqn:E4.
    { apply expect_length in E4. intros H%IHm. lia. }
    destruct (expect "}" (skip_ws r3)) as [r4 |] eqn:E5; [| done].
    apply expect_length in E5. intros [= <- <-]. lia.
Qed.

(** Twice the length of the text, and a little more, is fuel enough. *)
Lemma parse_fuel_enough (f : nat) :
  (∀ s, 2 * String.length s + 1 ≤ f → parse_value f s ≠ OutOfFuel) ∧
  (∀ s acc, 2 * String.length s + 2 ≤ f → parse_elements f s acc ≠ OutOfFuel) ∧
  (∀ s acc, 2 * String.length s + 2 ≤ f → parse_members f s acc ≠ OutOfFuel).
Proof.
  induction f as [| f (IHv & IHe & IHm)]; [repeat split; intros; lia |].
  destruct (parse_consumes f) as (Cv & Ce & Cm).
  split; [| split].
  - intros s Hf. rewrite parse_value_S.
    pose proof (skip_ws_length s) as Hs.
    destruct (skip_ws s) as [| c r0]; [done |]. simpl in Hs.
    destruct (Ascii.eqb c "{").
    { destruct (expect "}" (skip_ws r0)); [done | apply IHm; lia]. }
    destruct (Ascii.eqb c "[").
    { destruct (expect "]" (skip_ws r0)); [done | apply IHe; lia]. }
    destruct (Ascii.eqb c dquote).
    { by destruct (parse_string r0) as [[t r'] |]. }
    unfold parse_literal.
    destruct (Ascii.eqb c "n"); [by destruct (strip_prefix _ _) |].
    destruct (Ascii.eqb c "t"); [by destruct (strip_prefix _ _) |].
    destruct (Ascii.eqb c "f"); [by destruct (strip_prefix _ _) |].
    by destruct (parse_number (String c r0)) as [[x r'] |].
  - intros s acc Hf. rewrite parse_elements_S.
    pose proof (IHv s ltac:(lia)) as Hv.
    destruct (parse_value f s) as [v1 r1 | |] eqn:E1; [| done | done].
    apply Cv in E1. pose proof (skip_ws_length r1) as Hr1.
    destruct (expect "," (skip_ws r1)) as [r' |] eqn:E2.
    { apply expect_length in E2. apply IHe. lia. }
    by destruct (expect "]" (skip_ws r1)).
  - intros s acc Hf. rewrite parse_members_S.
    pose proof (skip_ws_length s) as Hs.
    destruct (expect dquote (skip_ws s)) as [r0 |] eqn:E0; [| done].
    apply expect_length in E0.
    destruct (parse_string r0) as [[k r1] |] eqn:E1; [| done].
    apply parse_string_length in E1. pose proof (skip_ws_length r1) as Hr1.
    destruct (expect ":" (skip_ws r1)) as [r2 |] eqn:E2; [| done].
    apply expect_length in E2.
    pose proof (IHv r2 ltac:(lia)) as Hv.
    destruct (parse_value f r2) as [v3 r3 | |] eqn:E3; [| done | done].
    apply Cv in E3. pose proof (skip_ws_length r3) as Hr3.
    destruct (expect "," (skip_ws r3)) as [r4 |] eqn:E4.
    { apply expect_length in E4. apply IHm. lia. }
    by destruct (expect "}" (skip_ws r3)).
Qed.

(** [JSON.parse] never runs out of fuel: its outcome is the outcome
    with any larger amount. *)
Lemma parse_value_fuel (text : string) (f : nat) :
  2 * String.length text + 2 ≤ f →
  parse_value f text = parse_value (2 * String.length text + 2) text.
Proof.
  intros Hf. apply parse_value_less_fuel; [| done].
  apply (parse_fuel_enough (2 * String.length text + 2)). lia.
Qed.

(** A value found with some fuel is what [JSON.parse] returns. *)
Lemma parse_of_parse_value (text : string) (f : nat) (v : value) :
  parse_value f text = Parsed v EmptyString → JSON.parse text = Return v.
Proof.
  intros H. unfold JSON.parse.
  rewrite <- (parse_value_fuel text (f `max` (2 * String.length text + 2)))
    by lia.
  rewrite (parse_value_more_fuel f _ text v "" H) by lia. done.
Qed.

(** ** Values through [JSON.stringify] and [JSON.parse] *)

Lemma parse_elements_more_fuel
  (f g : nat) (s : string) (acc : list value) (v : value) (r : string) :
  parse_elements f s acc = Parsed v r → f ≤ g →
  parse_elements g s acc = Parsed v r.
Proof.
  intros H Hle. induction Hle as [| g Hle IH]; [done |].
  destruct (parse_fuel_step g) as (_ & He & _). rewrite He; [done | by rewrite IH].
Qed.

Lemma parse_members_more_fuel
  (f g : nat) (s : string) (acc : gmap string value) (v : value) (r : string) :
  parse_members f s acc = Parsed v r → f ≤ g →
  parse_members g s acc = Parsed v r.
Proof.
  intros H Hle. induction Hle as [| g Hle IH]; [done |].
  destruct (parse_fuel_step g) as (_ & _ & Hm). rewrite Hm; [done | by rewrite IH].
Qed.

(** *** Sizes and data of the parts *)

Lemma vsize_elem (x : value) (l : list value) (p : gmap string value) :
  x ∈ l → vsize x < vsize (VArr l p).
Proof.
  intros Hx. cbn [vsize].
  assert (vsize x ≤ foldr (λ y acc, vsize y + acc) 0 l); [| lia].
  induction Hx as [x l | x y l Hx IH]; simpl; lia.
Qed.

Lemma vsize_member (k : string) (x : value) (p : gmap string value) :
  (k, x) ∈ map_to_list p → vsize x < vsize (VObj p).
Proof.
  intros Hx. cbn [vsize]. rewrite map_fold_foldr.
  assert (vsize x ≤ foldr (uncurry (λ (_ : string) y acc, vsize y + acc)) 0
                      (map_to_list p)); [| lia].
  revert Hx. generalize (map_to_list p) as l.
  induction l as [| [k' x'] l IH]; intros Hx; [by apply elem_of_nil in Hx |].
  apply elem_of_cons in Hx as [[= <- <-] | Hx]; cbn; [lia |].
  specialize (IH Hx). lia.
Qed.

Lemma json_data_arr (l : list value) (p : gmap string value) :
  json_data (VArr l p) = true →
  (∀ x, x ∈ l → json_data x = true) ∧ p = ∅.
Proof.
  cbn [json_data]. intros [Hl Hp]%andb_prop. split.
  - intros x Hx. rewrite forallb_forall in Hl. apply Hl.
    by apply list_elem_of_In.
  - apply map_to_list_empty_iff. by destruct (map_to_list p).
Qed.

Lemma json_data_obj (k : string) (x : value) (p : gmap string value) :
  json_data (VObj p) = true → (k, x) ∈ map_to_list p → json_data x = true.
Proof.
  cbn [json_data]. rewrite map_fold_foldr.
  generalize (map_to_list p) as l.
  induction l as [| [k' x'] l IH]; intros H Hx; [by apply elem_of_nil in Hx |].
  cbn in H. apply andb_prop in H as [H1 H2].
  apply elem_of_cons in Hx as [[= -> ->] | Hx]; auto.
Qed.

(** *** The first character of a value's text *)

Lemma value_end_number_end (s : string) : value_end s = true → number_end s = true.
Proof.
  destruct s as [| c s]; [done |].
  destruct c as [[] [] [] [] [] [] [] []]; done.
Qed.


Lemma parse_value_number (f : nat) (c : ascii) (r : string) :
  number_start c = true →
  parse_value (S f) (String c r) =
  match parse_number (String c r) with
  | Some (x, r') => Parsed (VNum x) r'
  | None => Bad
  end.
Proof. destruct c as [[] [] [] [] [] [] [] []]; try done. Qed.

Lemma number_start_value_start (c : ascii) (r : string) :
  number_start c = true → value_start (String c r) = true.
Proof. destruct c as [[] [] [] [] [] [] [] []]; done. Qed.

Lemma to_digits_head (ds : string) :
  all_digits ds = true → 1 ≤ String.length ds →
  ∃ c r, ds = String c r ∧ is_digit c = true.
Proof.
  destruct ds as [| c r]; simpl; [lia |]. intros [Hc _]%andb_prop _. eauto.
Qed.

Lemma to_string_head (m e : Z) :
  ∃ c r, to_string (Fin m e) = String c r ∧ number_start c = true.
Proof.
  unfold to_string. destruct (m =? 0)%Z; [by exists "0"%char, "" |].
  unfold finite_to_string.
  destruct (N_to_string_spec (Z.abs_N m)) as (Hd & _ & Hl & _).
  destruct (to_digits_head _ Hd Hl) as (c & r & Hds & Hc).
  assert (number_start c = true) as Hn by (unfold number_start; by rewrite Hc).
  destruct (m <? 0)%Z; [by eexists "-"%char, _ |].
  generalize dependent (N_to_string (Z.abs_N m)). intros ds _ _ ->.
  set (k := Z.of_nat (String.length (String c r))).
  set (n := (k + e)%Z).
  destruct ((k <=? n)%Z && (n <=? 21)%Z); [by eexists c, _ |].
  destruct ((0 <? n)%Z && (n <=? 21)%Z) eqn:EB.
  { apply andb_prop in EB as [H1%Z.ltb_lt _].
    destruct (Z.to_nat n) as [| j] eqn:Ej; [lia |]. by eexists c, _. }
  destruct ((-6 <? n)%Z && (n <=? 0)%Z); [by eexists "0"%char, _ |].
  destruct (k =? 1)%Z; by eexists c, _.
Qed.

(** *** Lists of texts *)

Lemma foldl_join (a b : string) (l : list string) :
  foldl (λ acc t, acc +:+ "," +:+ t) (a +:+ b) l
  = a +:+ foldl (λ acc t, acc +:+ "," +:+ t) b l.
Proof.
  revert b. induction l as [| t l IH]; intros b; simpl; [done |].
  by rewrite append_assoc, IH.
Qed.

Lemma join_comma_cons (s t : string) (l : list string) :
  join_comma (s :: t :: l) = s +:+ "," +:+ join_comma (t :: l).
Proof.
  unfold join_comma. cbn [foldl]. by rewrite 2!foldl_join.
Qed.

Lemma value_start_app (s r : string) :
  value_start s = true → value_start (s +:+ r) = true.
Proof. by destruct s. Qed.

Lemma value_start_skip (s : string) :
  value_start s = true →
  skip_ws s = s ∧ expect "]" s = None ∧ expect "}" s = None.
Proof.
  destruct s as [| c s]; [done |]. simpl.
  intros [[Hw H1]%andb_prop H2]%andb_prop.
  apply negb_true_iff in Hw, H1, H2. by rewrite Hw, H1, H2.
Qed.

Lemma value_start_nonempty (s : string) : value_start s = true → s ≠ EmptyString.
Proof. by destruct s. Qed.

Lemma parse_elements_texts
  (l : list value) (ss : list string) (acc : list value) (rest : string) :
  Forall2 reads_back l ss → l ≠ [] → value_end rest = true →
  ∃ f, parse_elements f (join_comma ss +:+ "]" +:+ rest) acc
       = Parsed (VArr (rev acc ++ l) ∅) rest.
Proof.
  intros H. revert acc. induction H as [| x s l ss [_ Hx] Hl IH]; [done |].
  intros acc _ Hrest. destruct Hl as [| y t l ss Hy Hl].
  - destruct (Hx ("]" +:+ rest)) as [f Hf]; [done |].
    exists (S f). unfold join_comma. cbn [foldl].
    rewrite parse_elements_S, Hf. by simpl.
  - rewrite join_comma_cons, !append_assoc.
    destruct (Hx ("," +:+ join_comma (t :: ss) +:+ "]" +:+ rest)) as [f1 Hf1];
      [done |].
    destruct (IH (x :: acc)) as [f2 Hf2]; [done | done |].
    exists (S (f1 `max` f2)). rewrite parse_elements_S.
    rewrite (parse_value_more_fuel f1 _ _ _ _ Hf1) by lia.
    cbn [skip_ws String.append is_ws expect]. simpl.
    rewrite (parse_elements_more_fuel f2 _ _ _ _ _ Hf2) by lia.
    simpl. by rewrite <- app_assoc.
Qed.



Lemma parse_member_head (f : nat) (k t tail : string) (acc : gmap string value) :
  parse_members (S f) (quote k +:+ ":" +:+ t +:+ tail) acc =
  match parse_value f (t +:+ tail) with
  | Parsed v r3 =>
      match expect "," (skip_ws r3) with
      | Some r4 => parse_members f r4 (<[k := v]> acc)
      | None =>
          match expect "}" (skip_ws r3) with
          | Some r4 => Parsed (VObj (<[k := v]> acc)) r4
          | None => Bad
          end
      end
  | Bad => Bad
  | OutOfFuel => OutOfFuel
  end.
Proof.
  rewrite parse_members_S, quote_shape.
  cbn [skip_ws]. change (is_ws dquote) with false. cbv iota.
  cbn [expect]. change (Ascii.eqb dquote dquote) with true. cbv iota.
  rewrite parse_string_quote_body. reflexivity.
Qed.

Lemma parse_members_texts
  (l : list (string * value)) (ms : list string) (acc : gmap string value)
  (rest : string) :
  Forall2 reads_back_member l ms → l ≠ [] → value_end rest = true →
  ∃ f, parse_members f (join_comma ms +:+ "}" +:+ rest) acc
       = Parsed (VObj (foldl insert_member acc l)) rest.
Proof.
  intros H. revert acc.
  induction H as [| [k x] m l ms (t & -> & _ & Hx) Hl IH]; [done |].
  intros acc _ Hrest. destruct Hl as [| y m' l ms Hy Hl].
  - destruct (Hx ("}" +:+ rest)) as [f Hf]; [done |].
    exists (S f). unfold join_comma. cbn [foldl].
    rewrite !append_assoc, parse_member_head, Hf. by simpl.
  - rewrite join_comma_cons, !append_assoc.
    destruct (Hx ("," +:+ join_comma (m' :: ms) +:+ "}" +:+ rest)) as [f1 Hf1];
      [done |].
    destruct (IH (<[k := x]> acc)) as [f2 Hf2]; [done | done |].
    exists (S (f1 `max` f2)). rewrite parse_member_head.
    rewrite (parse_value_more_fuel f1 _ _ _ _ Hf1) by lia.
    simpl.
    by rewrite (parse_members_more_fuel f2 _ _ _ _ _ Hf2) by lia.
Qed.

Lemma foldl_insert_member (l : list (string * value)) (acc : gmap string value) :
  foldl insert_member acc l = list_to_map (reverse l) ∪ acc.
Proof.
  revert acc. induction l as [| [k x] l IH]; intros acc; simpl.
  - by rewrite (left_id_L ∅ (∪)).
  - rewrite IH, reverse_cons, list_to_map_app. simpl.
    rewrite <- (assoc_L (∪)). f_equal.
    unfold insert_member. simpl. rewrite insert_union_singleton_l.
    by rewrite insert_empty.
Qed.

Lemma foldl_insert_map_to_list (p : gmap string value) :
  foldl insert_member ∅ (map_to_list p) = p.
Proof.
  rewrite foldl_insert_member, (right_id_L ∅ (∪)).
  symmetry. apply list_to_map_flip. by rewrite reverse_Permutation.
Qed.

(** *** The round trip *)


Lemma serialize_elements (l : list value) :
  (∀ x, x ∈ l → writes_back x) →
  ∃ ss, mapM (λ x, bind (serialize x) (λ s, Return (default "null" s))) l
        = Return ss ∧
        Forall2 reads_back l ss.
Proof.
  induction l as [| x l IH]; intros H; [by exists [] |].
  destruct (H x) as (t & Ht & Hx); [by left |].
  destruct IH as (ss & Hss & Hl); [intros y Hy; apply H; by right |].
  exists (t :: ss). cbn [mapM]. rewrite Ht. cbn [bind default].
  rewrite Hss. by split; [| constructor].
Qed.

Lemma serialize_members (l : list (string * value)) :
  (∀ kx, kx ∈ l → writes_back kx.2) →
  ∃ ms,
    foldr
      (uncurry
         (λ k x (acc : result (list string)),
            bind (serialize x)
              (λ s, bind acc
                      (λ ms, Return
                               match s with
                               | Some t => (quote k +:+ ":" +:+ t) :: ms
                               | None => ms
                               end))))
      (Return []) l
    = Return ms ∧
    Forall2 reads_back_member l ms.
Proof.
  induction l as [| [k x] l IH]; intros H; [by exists [] |].
  destruct (H (k, x)) as (t & Ht & Hx); [by left |].
  destruct IH as (ms & Hms & Hl); [intros y Hy; apply H; by right |].
  exists ((quote k +:+ ":" +:+ t) :: ms). cbn [foldr uncurry]. simpl in Ht.
  rewrite Hms, Ht. split; [done |]. constructor; [| done]. by exists t.
Qed.

(** JSON data is written as a text that reads back as the same value. *)
Lemma serialize_reads_back (v : value) : json_data v = true → writes_back v.
Proof.
  remember (vsize v) as n eqn:Hn. revert v Hn.
  induction n as [n IH] using lt_wf_ind. intros v -> Hv.
  destruct v as [| | b | x | s | z | l p | p]; try done.
  - exists "null". split; [done |]. split; [done |]. intros rest _. by exists 1.
  - exists (if b then "true" else "false"). split; [done |].
    split; [by destruct b |]. intros rest _. exists 1. by destruct b.
  - destruct x as [| neg | m e]; try done. simpl in Hv.
    exists (to_string (Fin m e)). split; [done |].
    destruct (to_string_head m e) as (c & r & Hs & Hc). split.
    + rewrite Hs. by apply number_start_value_start.
    + intros rest Hrest. exists 1.
      pose proof (parse_number_to_string m e rest Hv
                    (value_end_number_end rest Hrest)) as Hp.
      rewrite Hs in *. change (String c r +:+ rest) with (String c (r +:+ rest)) in *.
      by rewrite parse_value_number, Hp.
  - exists (quote s). split; [done |]. split; [done |].
    intros rest _. exists 1. rewrite quote_shape, parse_value_S.
    cbn [skip_ws]. change (is_ws dquote) with false. cbv iota.
    change (Ascii.eqb dquote "{") with false.
    change (Ascii.eqb dquote "[") with false.
    change (Ascii.eqb dquote dquote) with true. cbv iota.
    by rewrite parse_string_quote_body.
  - destruct (json_data_arr l p Hv) as [Hl ->].
    destruct (serialize_elements l) as (ss & Hss & Hrb).
    { intros x Hx. apply (IH (vsize x)); [by apply vsize_elem | done | auto]. }
    exists ("[" +:+ join_comma ss +:+ "]"). split.
    { cbn [serialize]. by rewrite Hss. }
    split; [done |]. intros rest Hrest.
    destruct Hrb as [| x s l ss Hx Hrb]; [by exists 1 |].
    destruct (parse_elements_texts (x :: l) (s :: ss) [] rest) as [f Hf];
      [by constructor | done | done |].
    exists (S f). rewrite !append_assoc.
    assert (value_start (join_comma (s :: ss) +:+ "]" +:+ rest) = true) as Hst.
    { destruct ss as [| t ss]; [| rewrite join_comma_cons, append_assoc];
        apply value_start_app, Hx. }
    destruct (value_start_skip _ Hst) as (Hsk & He & _).
    set (body := join_comma (s :: ss) +:+ "]" +:+ rest) in *.
    change ("[" +:+ body) with (String "[" body). rewrite parse_value_S.
    cbn [skip_ws]. change (is_ws "[") with false. cbv iota.
    change (Ascii.eqb "[" "{") with false.
    change (Ascii.eqb "[" "[") with true. cbv iota.
    by rewrite Hsk, He, Hf.
  - destruct (serialize_members (map_to_list p)) as (ms & Hms & Hrb).
    { intros [k x] Hx. apply (IH (vsize x)); [by eapply vsize_member | done |].
      by eapply json_data_obj. }
    exists ("{" +:+ join_comma ms +:+ "}"). split.
    { cbn [serialize]. rewrite map_fold_foldr. by rewrite Hms. }
    split; [done |]. intros rest Hrest.
    destruct (map_to_list p) as [| [k x] l] eqn:El.
    { apply map_to_list_empty_iff in El as ->.
      inversion Hrb; subst. by exists 1. }
    destruct (parse_members_texts ((k, x) :: l) ms ∅ rest) as [f Hf];
      [done | done | done |].
    rewrite <- El, foldl_insert_map_to_list in Hf.
    exists (S f). rewrite !append_assoc.
    inversion Hrb as [| kx m l' ms' (t & Hm & _) Hrb']; subst.
    assert (∃ tail, join_comma ((quote k +:+ ":" +:+ t) :: ms') +:+ "}" +:+ rest
                    = String dquote tail) as [tail Htail].
    { destruct ms' as [| m' ms']; [| rewrite join_comma_cons];
        unfold join_comma; cbn [foldl]; rewrite ?append_assoc, quote_shape; eauto. }
    set (body := join_comma _ +:+ "}" +:+ rest) in *.
    change ("{" +:+ body) with (String "{" body). rewrite parse_value_S.
    cbn [skip_ws]. change (is_ws "{") with false. cbv iota.
    change (Ascii.eqb "{" "{") with true. cbv iota.
    rewrite Htail at 1. cbn [skip_ws]. change (is_ws dquote) with false.
    cbv iota. cbn [expect]. change (Ascii.eqb dquote "}") with false. cbv iota.
    done.
Qed.

(** The round trip of [JSON.stringify] and [JSON.parse]. *)
Lemma stringify_parse (v : value) :
  json_data v = true →
  ∃ text, JSON.stringify v = Return (Some text) ∧
          text ≠ EmptyString ∧
          JSON.parse text = Return v.
Proof.
  intros (text & Hs & Hst & Hp)%serialize_reads_back.
  exists text. split; [done |]. split; [by apply value_start_nonempty |].
  destruct (Hp "") as [f Hf]; [done |]. rewrite append_nil_r in Hf.
  by apply (parse_of_parse_value text f).
Qed.

(** ** How the adapter runs *)

#[local] Arguments JSON.stringify : simpl never.
#[local] Arguments JSON.parse : simpl never.

Ltac js_step :=
  unfold mbind, js_bind, mret, js_ret, lift, try_catch, getItem, setItem,
    console_error, JSON_stringify, JSON_parse, getFullYear, getMonth; simpl.

Lemma getItem_falsy (w : world) (key : string) :
  nothing_usable w key →
  ∃ raw, getItem key w = (Return raw, w) ∧ ToBoolean raw = false.
Proof.
  intros [H | H]; unfold getItem; rewrite H; eauto.
Qed.

Lemma getItem_truthy (w : world) (key raw : string) :
  items w !! key = Some raw → raw ≠ EmptyString →
  getItem key w = (Return (VStr raw), w) ∧ ToBoolean (VStr raw) = true.
Proof.
  intros H Hne. unfold getItem. rewrite H. split; [done |].
  simpl. destruct raw; [done | reflexivity].
Qed.

Lemma default_param_supplied (v dflt : value) :
  v ≠ VUndefined → default_param v dflt = v.
Proof. destruct v; done. Qed.

Lemma is_null_false (v : value) : v ≠ VNull → is_null v = false.
Proof. destruct v; done. Qed.

(** Nothing usable stored, no seed: the default, and the world as it
    was. *)
Lemma load_no_seed (w : world) (key : string) (d s : value) :
  nothing_usable w key → d ≠ VUndefined → s = VUndefined ∨ s = VNull →
  loadFromStorage key d s w = (Return d, w).
Proof.
  intros Hk Hd Hs. destruct (getItem_falsy w key Hk) as (raw & Hg & Hraw).
  unfold loadFromStorage. rewrite (default_param_supplied d) by done.
  unfold try_catch, mbind, js_bind. rewrite Hg, Hraw. simpl.
  destruct Hs as [-> | ->]; reflexivity.
Qed.

(** Nothing usable stored, a seed that serializes and a backend that
    takes the write: the seed, written. *)
Lemma load_seed_written (w : world) (key text : string) (d s : value) :
  nothing_usable w key → s ≠ VUndefined → s ≠ VNull →
  JSON.stringify s = Return (Some text) →
  accepts w (items w) key text = true →
  loadFromStorage key d s w
  = (Return s, with_items w (<[key := text]> (items w))).
Proof.
  intros Hk Hu Hn Hs Ha. destruct (getItem_falsy w key Hk) as (raw & Hg & Hraw).
  unfold loadFromStorage. rewrite (default_param_supplied s) by done.
  unfold try_catch, mbind, js_bind. rewrite Hg, Hraw. simpl.
  rewrite is_null_false by done. js_step. rewrite Hs. simpl.
  rewrite Ha. reflexivity.
Qed.

(** Nothing usable stored, a seed whose serialization or whose write
    fails: the default, the failure on the console, nothing written. *)
Lemma load_seed_failed (w : world) (key : string) (d s : value) :
  nothing_usable w key → d ≠ VUndefined → s ≠ VUndefined → s ≠ VNull →
  store_fails w key s →
  ∃ e, loadFromStorage key d s w
       = (Return d,
          with_console w
            (console w ++ [(load_error key, e)])).
Proof.
  intros Hk Hd Hu Hn Hf. destruct (getItem_falsy w key Hk) as (raw & Hg & Hraw).
  unfold loadFromStorage.
  rewrite (default_param_supplied s), (default_param_supplied d) by done.
  unfold try_catch, mbind, js_bind. rewrite Hg, Hraw. simpl.
  rewrite is_null_false by done. js_step. unfold store_fails in Hf.
  destruct (JSON.stringify s) as [t | e]; simpl; [rewrite Hf |]; eauto.
Qed.

(** The same, with the line that is logged. *)
Lemma load_seed_failed_logged (w : world) (key : string) (d s : value) :
  nothing_usable w key → d ≠ VUndefined → s ≠ VUndefined → s ≠ VNull →
  store_fails w key s →
  loadFromStorage key d s w
  = (Return d,
     with_console w (console w ++ [(load_error key, store_error s)])).
Proof.
  intros Hk Hd Hu Hn Hf. destruct (getItem_falsy w key Hk) as (raw & Hg & Hraw).
  unfold loadFromStorage.
  rewrite (default_param_supplied s), (default_param_supplied d) by done.
  unfold try_catch, mbind, js_bind. rewrite Hg, Hraw. simpl.
  rewrite is_null_false by done. js_step. unfold store_fails, store_error in *.
  destruct (JSON.stringify s) as [t | e]; simpl; [rewrite Hf |]; reflexivity.
Qed.

(** Something usable stored: the parsed value unless it is [null] or
    [undefined]; the default then, and also when the text does not
    parse, which is logged.  The backend is not written. *)
Lemma load_stored (w : world) (key raw : string) (d s : value) :
  items w !! key = Some raw → raw ≠ EmptyString → d ≠ VUndefined →
  loadFromStorage key d s w =
  match JSON.parse raw with
  | Return v => (Return (if is_nullish v then d else v), w)
  | Throw e =>
      (Return d,
       with_console w
         (console w ++ [(load_error key, e)]))
  end.
Proof.
  intros Hk Hne Hd. destruct (getItem_truthy w key raw Hk Hne) as [Hg Hraw].
  unfold loadFromStorage. rewrite (default_param_supplied d) by done.
  unfold try_catch, mbind, js_bind. rewrite Hg, Hraw. js_step.
  destruct (JSON.parse raw) as [v | e]; simpl; [| reflexivity].
  destruct v; reflexivity.
Qed.

Lemma save_stored (w : world) (key : string) (v : value) (t : option string) :
  JSON.stringify v = Return t →
  accepts w (items w) key (DOMString t) = true →
  saveToStorage key v w = (Return (VBool true), holding w key (DOMString t)).
Proof.
  intros Hs Ha. unfold saveToStorage. js_step. rewrite Hs. simpl.
  rewrite Ha. reflexivity.
Qed.

Lemma save_failed (w : world) (key : string) (v : value) :
  store_fails w key v →
  ∃ e, saveToStorage key v w
       = (Return (VBool false),
          with_console w (console w ++ [(save_error key, e)])).
Proof.
  unfold store_fails, saveToStorage. intros Hf. js_step.
  destruct (JSON.stringify v) as [t | e]; simpl; [rewrite Hf |]; eauto.
Qed.

Lemma store_fails_dec (w : world) (key : string) (v : value) :
  store_fails w key v ∨
  ∃ t, JSON.stringify v = Return t ∧
       accepts w (items w) key (DOMString t) = true.
Proof.
  unfold store_fails. destruct (JSON.stringify v) as [t | e]; [| by left].
  destruct (accepts w (items w) key (DOMString t)) eqn:Ha; eauto.
Qed.

Lemma parse_empty : JSON.parse EmptyString = Throw SyntaxError.
Proof. reflexivity. Qed.

(** Stored text that parses: the load is a pure read. *)
Lemma load_stored_frame (w : world) (key raw : string) (v d s : value) :
  items w !! key = Some raw → JSON.parse raw = Return v → d ≠ VUndefined →
  loadFromStorage key d s w = (Return (if is_nullish v then d else v), w).
Proof.
  intros Hk Hp Hd. rewrite (load_stored w key raw); [by rewrite Hp | done | | done].
  intros ->. by rewrite parse_empty in Hp.
Qed.

(** ** The generic adapter *)

(** C1 (as the code has it): with nothing stored under [key],
    [loadFromStorage(key, d)] returns [d] and leaves the world as it
    was, so a later load still finds nothing; [loadFromStorage(key, d,
    s)] with a seed that is supplied and not [null] writes the
    serialized seed and returns [s] when the seed serializes and the
    backend takes the write; when the serialization or the write
    throws, it returns [d], logs that one error under the message of
    the load and leaves everything else, the backend included, as it
    was. *)
Theorem C1_seed_vs_default (w : world) (key : string) (d s : value) :
  items w !! key = None → d ≠ VUndefined → s ≠ VUndefined → s ≠ VNull →
  loadFromStorage key d VUndefined w = (Return d, w) ∧
  (∀ text, JSON.stringify s = Return (Some text) →
           accepts w (items w) key text = true →
           loadFromStorage key d s w = (Return s, holding w key text)) ∧
  (store_fails w key s →
   loadFromStorage key d s w
   = (Return d,
      with_console w (console w ++ [(load_error key, store_error s)]))).
Proof.
  intros Hk Hd Hu Hn. split; [| split].
  - apply load_no_seed; [by left | done | by left].
  - intros text Hs Ha. apply load_seed_written; try done. by left.
  - intros Hf. apply load_seed_failed_logged; try done. by left.
Qed.

Lemma C1_seed_vs_default_witness :
  loadFromStorage "k" empty_array VUndefined fresh_backend
  = (Return empty_array, fresh_backend) ∧
  loadFromStorage "k" empty_array (num 7) fresh_backend
  = (Return (num 7), holding fresh_backend "k" "7").
Proof.
  destruct (C1_seed_vs_default fresh_backend "k" empty_array (num 7))
    as (H1 & H2 & _); [reflexivity | done | done | done |].
  split; [exact H1 | apply H2; reflexivity].
Defined.

(** C1 fails as stated: on a backend that refuses the write,
    [loadFromStorage("k", [], 7)] finds nothing stored and returns the
    default [[]], not the seed. *)
Lemma C1_refused_seed_returns_default :
  items full_backend !! "k" = None ∧
  loadFromStorage "k" empty_array (num 7) full_backend
  = (Return empty_array,
     with_console full_backend [(load_error "k", QuotaExceededError)]) ∧
  empty_array ≠ num 7.
Proof. split; [reflexivity | split; [reflexivity | discriminate]]. Qed.

(** C4: when the text stored under [key] does not parse,
    [loadFromStorage(key, d)] returns [d] normally, logs the error of
    the parser under the message of the load and changes nothing else
    (the empty string is not handed to the parser, and nothing is
    logged for it); when the text parses to [null] (or [undefined]) it
    returns [d] and changes nothing at all.  The backend is as before
    in every case.  Texts are those whose [\uXXXX] escapes name bytes,
    on which the parser of the model fails exactly when [JSON.parse]
    throws. *)
Theorem C4_load_failure_recovery
  (w : world) (key raw : string) (d : value) :
  items w !! key = Some raw → d ≠ VUndefined →
  (∀ e, JSON.parse raw = Throw e → byte_escapes raw = true →
        loadFromStorage key d VUndefined w
        = (Return d,
           if String.eqb raw ""
           then w
           else with_console w (console w ++ [(load_error key, e)]))) ∧
  (JSON.parse raw = Return VNull ∨ JSON.parse raw = Return VUndefined →
   loadFromStorage key d VUndefined w = (Return d, w)).
Proof.
  intros Hk Hd. destruct (decide (raw = EmptyString)) as [-> | Hne].
  - split.
    + intros e _ _. apply load_no_seed; [by right | done | by left].
    + rewrite parse_empty. by intros [? | ?].
  - rewrite (load_stored w key raw) by done.
    apply String.eqb_neq in Hne. rewrite Hne. split.
    + intros e -> _. reflexivity.
    + intros [-> | ->]; reflexivity.
Qed.

Lemma C4_load_failure_recovery_witness :
  loadFromStorage "k" (VStr "d") VUndefined (holding fresh_backend "k" "{oops")
  = (Return (VStr "d"),
     with_console (holding fresh_backend "k" "{oops")
       [(load_error "k", SyntaxError)]) ∧
  loadFromStorage "k" (VStr "d") VUndefined (holding fresh_backend "k" " null ")
  = (Return (VStr "d"), holding fresh_backend "k" " null ").
Proof.
  split.
  - apply (proj1 (C4_load_failure_recovery (holding fresh_backend "k" "{oops")
                    "k" "{oops" (VStr "d") eq_refl ltac:(done)));
      reflexivity.
  - apply (proj2 (C4_load_failure_recovery (holding fresh_backend "k" " null ")
                    "k" " null " (VStr "d") eq_refl ltac:(done))).
    left. reflexivity.
Defined.

(** C5: [saveToStorage(key, v)] always returns a boolean and never
    throws; it returns [false] exactly when the serialization throws or
    the backend refuses the write, and then the backend holds what it
    held before; otherwise it returns [true] and the text is stored. *)
Theorem C5_save_failure_semantics (w : world) (key : string) (v : value) :
  ∃ b w', saveToStorage key v w = (Return (VBool b), w') ∧
          (store_fails w key v → b = false ∧ items w' = items w) ∧
          (b = false → store_fails w key v) ∧
          (b = true →
           ∃ t, JSON.stringify v = Return t ∧
                items w' = <[key := DOMString t]> (items w)).
Proof.
  destruct (store_fails_dec w key v) as [Hf | (t & Hs & Ha)].
  - destruct (save_failed w key v Hf) as [e He].
    exists false. eexists. split; [exact He |].
    split; [done |]. split; [done | discriminate].
  - exists true. eexists. split; [by apply (save_stored w key v t) |].
    split; [| split].
    + unfold store_fails. rewrite Hs, Ha. discriminate.
    + discriminate.
    + intros _. exists t. done.
Qed.

(** C10 (as the code has it): a stored empty string is handled like an
    absent key.  Without a seed the load returns [d] and writes
    nothing; with a seed that is supplied and not [null] it replaces the
    empty string by the serialized seed and returns [s] when the seed
    serializes and the backend takes the write, and returns [d] with the
    empty string still stored when the serialization or the write
    throws. *)
Theorem C10_empty_string_as_absent (w : world) (key : string) (d s : value) :
  items w !! key = Some EmptyString →
  d ≠ VUndefined → s ≠ VUndefined → s ≠ VNull →
  loadFromStorage key d VUndefined w = (Return d, w) ∧
  (∀ text, JSON.stringify s = Return (Some text) →
           accepts w (items w) key text = true →
           loadFromStorage key d s w = (Return s, holding w key text)) ∧
  (store_fails w key s →
   ∃ w', loadFromStorage key d s w = (Return d, w') ∧ items w' = items w).
Proof.
  intros Hk Hd Hu Hn. split; [| split].
  - apply load_no_seed; [by right | done | by left].
  - intros text Hs Ha. apply load_seed_written; try done. by right.
  - intros Hf.
    destruct (load_seed_failed w key d s) as [e He]; try done; [by right |].
    rewrite He. eauto.
Qed.

Lemma C10_empty_string_as_absent_witness :
  loadFromStorage "k" empty_array VUndefined (holding fresh_backend "k" "")
  = (Return empty_array, holding fresh_backend "k" "") ∧
  loadFromStorage "k" empty_array (num 7) (holding fresh_backend "k" "")
  = (Return (num 7), holding (holding fresh_backend "k" "") "k" "7").
Proof.
  destruct (C10_empty_string_as_absent (holding fresh_backend "k" "") "k"
              empty_array (num 7))
    as (H1 & H2 & _); [reflexivity | done | done | done |].
  split; [exact H1 | apply H2; reflexivity].
Defined.

(** C10 fails as stated: on a backend that holds the empty string under
    ["k"] and refuses the write, [loadFromStorage("k", [], 7)] returns
    the default [[]] and the empty string stays. *)
Lemma C10_refused_seed_returns_default :
  items (holding full_backend "k" "") !! "k" = Some EmptyString ∧
  loadFromStorage "k" empty_array (num 7) (holding full_backend "k" "")
  = (Return empty_array,
     with_console (holding full_backend "k" "")
       [(load_error "k", QuotaExceededError)]) ∧
  empty_array ≠ num 7.
Proof. split; [reflexivity | split; [reflexivity | discriminate]]. Qed.

(** C3 (as the code has it): for JSON data other than [null] (finite
    numbers, strings, booleans, and arrays and objects of JSON data),
    when [saveToStorage(key, v)] returns [true], a load of [key] that
    follows returns [v], whatever default it is given. *)
Theorem C3_round_trip (w w' : world) (key : string) (v d : value) :
  json_data v = true → v ≠ VNull → d ≠ VUndefined →
  saveToStorage key v w = (Return (VBool true), w') →
  loadFromStorage key d VUndefined w' = (Return v, w').
Proof.
  intros Hv Hn Hd Hsave.
  destruct (stringify_parse v Hv) as (text & Hs & Hne & Hp).
  destruct (store_fails_dec w key v) as [Hf | (t & Ht & Ha)].
  { destruct (save_failed w key v Hf) as [e He]. congruence. }
  rewrite (save_stored w key v t Ht Ha) in Hsave.
  injection Hsave as <-. rewrite Hs in Ht. injection Ht as <-.
  rewrite (load_stored_frame _ key text v); try done.
  - by destruct v.
  - unfold holding. simpl. apply lookup_insert_eq.
Qed.

Lemma C3_round_trip_witness :
  saveToStorage "k" (VObj (<["item1" := num 123]> ∅)) fresh_backend
  = (Return (VBool true), holding fresh_backend "k" (q "{'item1':123}")) ∧
  loadFromStorage "k" empty_array VUndefined
    (holding fresh_backend "k" (q "{'item1':123}"))
  = (Return (VObj (<["item1" := num 123]> ∅)),
     holding fresh_backend "k" (q "{'item1':123}")).
Proof.
  split; [vm_compute; reflexivity |].
  apply (C3_round_trip fresh_backend); [reflexivity | done | done |].
  vm_compute. reflexivity.
Defined.

(** C3 fails as stated: [saveToStorage("k", null)] returns [true], and
    the load that follows returns its default, not [null]. *)
Lemma C3_null_is_not_read_back :
  saveToStorage "k" VNull fresh_backend
  = (Return (VBool true), holding fresh_backend "k" "null") ∧
  loadFromStorage "k" (VStr "d") VUndefined (holding fresh_backend "k" "null")
  = (Return (VStr "d"), holding fresh_backend "k" "null") ∧
  VStr "d" ≠ VNull.
Proof. split; [reflexivity | split; [reflexivity | discriminate]]. Qed.

(** ** Dues *)

#[local] Arguments to_string : simpl never.
#[local] Arguments of_Z : simpl never.
#[local] Arguments padStart : simpl never.
#[local] Arguments ToNumber : simpl never.
#[local] Arguments ToString : simpl never.
#[local] Arguments ToBoolean : simpl never.

(** A step that leaves the world alone, followed by steps that do. *)
Lemma bind_frame {A B} (m : js A) (k : A → js B) (w : world) :
  snd (m w) = w → (∀ a, snd (k a w) = w) → snd ((m ≫= k) w) = w.
Proof.
  unfold mbind, js_bind. destruct (m w) as [[a | e] w']; simpl; intros ->; auto.
Qed.

Lemma lift_frame {A} (r : result A) (w : world) : snd (lift r w) = w.
Proof. reflexivity. Qed.

(** C9: when the text stored under the dues key parses, [loadDues(bid)]
    leaves the whole world as it was: nothing is written under the dues
    key or under any other key, whatever the repaired record returned
    to the caller is. *)
Theorem C9_read_time_only_repair (w : world) (bid raw : string) (v : value) :
  items w !! kDues bid = Some raw → JSON.parse raw = Return v →
  snd (loadDues bid w) = w.
Proof.
  intros Hk Hp. unfold loadDues.
  apply bind_frame; [reflexivity | intros y].
  apply bind_frame; [reflexivity | intros m].
  apply bind_frame; [by rewrite (load_stored_frame w _ raw v) | intros data].
  destruct (negb (ToBoolean data)); [reflexivity |].
  repeat (apply bind_frame; [apply lift_frame | intros ?]).
  reflexivity.
Qed.

Lemma C9_read_time_only_repair_witness :
  snd (loadDues "b1"
         (holding fresh_backend (kDues "b1") (q "{'monthlyFee':'abc'}")))
  = holding fresh_backend (kDues "b1") (q "{'monthlyFee':'abc'}").
Proof.
  apply (C9_read_time_only_repair _ "b1" (q "{'monthlyFee':'abc'}")
           (VObj (<["monthlyFee" := VStr "abc"]> ∅)));
    vm_compute; reflexivity.
Defined.

Lemma field_insert_ne (p : gmap string value) (a b : string) (x : value) :
  a ≠ b → field (<[a := x]> p) b = field p b.
Proof. intros H. unfold field. by rewrite lookup_insert_ne. Qed.

(** The two coercions of the normalisation return for primitives, so
    a stored record with primitive (or absent) [monthlyFee] and
    [startMonth] is always repaired. *)
Lemma ToNumber_primitive (v : value) :
  is_primitive v = true → ∃ n, ToNumber v = Return n.
Proof. destruct v; try done; by eexists. Qed.

Lemma ToString_primitive (v : value) :
  is_primitive v = true → ∃ t, ToString v = Return t.
Proof. destruct v; try done; by eexists. Qed.




(** ** Opening balance *)


Lemma opening_balance_stored (w : world) (bid raw : string) :
  items w !! kOpeningBalance bid = Some raw → raw ≠ EmptyString →
  loadOpeningBalance bid w
  = (Return (or_else (VNum (of_string raw)) (num 0)), w).
Proof.
  intros Hk Hne. destruct (getItem_truthy w _ raw Hk Hne) as [Hg Hraw].
  unfold loadOpeningBalance, mbind, js_bind. rewrite Hg, Hraw. reflexivity.
Qed.

(** C6 fails on the code: on an empty backend that refuses the write,
    [loadOpeningBalance("b1")] does not return; the
    [QuotaExceededError] of [setItem] reaches the caller. *)
Theorem C6_loadOpeningBalance_raises :
  loadOpeningBalance "b1" full_backend
  = (Throw QuotaExceededError, full_backend).
Proof. reflexivity. Qed.

(** The accessors built on the adapter return normally. *)
Lemma loadFromStorage_returns (w : world) (key : string) (d s : value) :
  ∃ v w', loadFromStorage key d s w = (Return v, w').
Proof.
  unfold loadFromStorage, try_catch, mbind, js_bind, getItem.
  destruct (negb (ToBoolean _)).
  - destruct (negb (is_null _)); [| by eauto].
    unfold JSON_stringify, lift, setItem.
    destruct (JSON.stringify _) as [t | e]; [| by eauto].
    destruct (accepts w _ _ _); by eauto.
  - unfold JSON_parse, lift.
    destruct (bind _ _) as [v | e]; by eauto.
Qed.

Lemma saveOpeningBalance_returns (w : world) (bid : string) (val : value) :
  ∃ b w', saveOpeningBalance bid val w = (Return (VBool b), w').
Proof.
  unfold saveOpeningBalance, try_catch, mbind, js_bind, lift, setItem.
  destruct (ToNumber _) as [n | e]; [| by eauto].
  destruct (ToString _) as [t | e]; [| by eauto].
  destruct (accepts w _ _ _); by eauto.
Qed.

(** The normalisation of [loadDues] runs outside any [try]: a stored
    record whose [startMonth] has a [toString] member makes [String]
    throw. *)
Example loadDues_raises_on_crafted_record :
  fst (loadDues "b1"
         (holding fresh_backend (kDues "b1") (q "{'startMonth':{'toString':1}}")))
  = Throw TypeError.
Proof. vm_compute. reflexivity. Qed.




Example opening_balance_samples :
  map (λ raw, fst (loadOpeningBalance "b1"
                     (holding fresh_backend (kOpeningBalance "b1") raw)))
    ["150.5"; "abc"; "0"; " 12 "; "-3e2"; "0x1F"; "1,5"]
  = map (λ x, Return (VNum x))
      [Fin 1505 (-1); Fin 0 0; Fin 0 0; Fin 12 0; Fin (-3) 2; Fin 31 0; Fin 0 0].
Proof. vm_compute. reflexivity. Qed.

Example opening_balance_first_read :
  loadOpeningBalance "b1" fresh_backend
  = (Return (VNum (Fin 0 0)), holding fresh_backend (kOpeningBalance "b1") "0").
Proof. reflexivity. Qed.

(** ** Keys *)

(** With kinds free of underscores, the first underscore of
    [kind ++ "__" ++ bid] ends the kind. *)
Lemma kind_bid_inj (k1 k2 b1 b2 : string) :
  no_underscore k1 = true → no_underscore k2 = true →
  k1 +:+ "__" +:+ b1 = k2 +:+ "__" +:+ b2 → b1 = b2 ∧ k1 = k2.
Proof.
  revert k2. induction k1 as [| c k1 IH]; intros [| c' k2] H1 H2 H;
    simpl in *.
  - by injection H as ->.
  - injection H as <- _. done.
  - injection H as -> _. done.
  - injection H as -> H.
    apply andb_prop in H1 as [_ H1]. apply andb_prop in H2 as [_ H2].
    destruct (IH k2 H1 H2 H) as [-> ->]. done.
Qed.

Lemma kRead_same_kind (b1 b2 k : string) : kRead b1 k = kRead b2 k → b1 = b2.
Proof.
  unfold kRead. intros H. apply append_inv_head in H.
  apply append_inv_head in H. by apply append_inv_head in H.
Qed.

Lemma kRead_same_tenant (b k1 k2 : string) : kRead b k1 = kRead b k2 → k1 = k2.
Proof.
  unfold kRead. intros H. apply append_inv_head in H.
  by apply append_inv_tail in H.
Qed.

Lemma per_tenant_inj (f : family) (b1 b2 k1 k2 : string) :
  per_tenant f = true → key_of f b1 k1 = key_of f b2 k2 → b1 = b2.
Proof.
  destruct f; try discriminate; intros _ H; simpl in H;
    by injection H.
Qed.

Lemma families_disjoint (f1 f2 : family) (b1 b2 k1 k2 : string) :
  f1 ≠ f2 → key_of f1 b1 k1 ≠ key_of f2 b2 k2.
Proof.
  intros Hne H. destruct f1, f2; try done; simpl in H; discriminate H.
Qed.

(** C8 (as the code has it): under each per-tenant family two distinct
    tenants get distinct keys; under the read-tracking family keys
    differ for two tenants of one kind, for two kinds of one tenant, and
    for any two distinct pairs whose kinds contain no underscore; and
    two distinct families never build the same key. *)
Theorem C8_key_isolation :
  (∀ f b1 b2 k1 k2,
     per_tenant f = true → b1 ≠ b2 → key_of f b1 k1 ≠ key_of f b2 k2) ∧
  (∀ b1 b2 k, b1 ≠ b2 → kRead b1 k ≠ kRead b2 k) ∧
  (∀ b k1 k2, k1 ≠ k2 → kRead b k1 ≠ kRead b k2) ∧
  (∀ b1 b2 k1 k2,
     no_underscore k1 = true → no_underscore k2 = true →
     (b1, k1) ≠ (b2, k2) → kRead b1 k1 ≠ kRead b2 k2) ∧
  (∀ f1 f2 b1 b2 k1 k2, f1 ≠ f2 → key_of f1 b1 k1 ≠ key_of f2 b2 k2).
Proof.
  repeat split.
  - intros f b1 b2 k1 k2 Hf Hne H. by apply Hne, (per_tenant_inj f b1 b2 k1 k2).
  - intros b1 b2 k Hne H. by apply Hne, (kRead_same_kind b1 b2 k).
  - intros b k1 k2 Hne H. by apply Hne, (kRead_same_tenant b k1 k2).
  - intros b1 b2 k1 k2 H1 H2 Hne H. apply Hne. unfold kRead in H.
    apply append_inv_head in H.
    destruct (kind_bid_inj k1 k2 b1 b2 H1 H2 H) as [-> ->]. done.
  - intros. by apply families_disjoint.
Qed.

(** C8 fails as stated: two distinct (tenant, kind) pairs of the
    read-tracking family build the same key. *)
Lemma C8_read_keys_collide :
  kRead "c" "a__b" = kRead "b__c" "a" ∧ ("c", "a__b") ≠ ("b__c", "a").
Proof. split; [reflexivity | discriminate]. Qed.

(** ** The platform model on samples *)

Example of_string_decimal : Num.of_string "150.5" = Num.Fin 1505 (-1).
Proof. reflexivity. Qed.

Example of_string_garbage : Num.of_string "abc" = Num.NaN.
Proof. reflexivity. Qed.

Example to_string_samples :
  map Num.to_string
    [Num.of_Z 2000; Num.Fin 1505 (-1); Num.Fin (-5) (-7); Num.Fin 1 21;
     Num.Fin 123 18; Num.Fin 12 (-7); Num.Fin 0 0]
  = ["2000"; "150.5"; "-5e-7"; "1e+21"; "123000000000000000000";
     "0.0000012"; "0"].
Proof. reflexivity. Qed.

Example stringify_sample :
  JSON.stringify
    (JS.VObj (<["a" := JS.VArr [JS.num 1; JS.VUndefined; JS.VStr (Chars.q "x'y")] ∅]>
             (<["b" := JS.VUndefined]> (<["c" := JS.VNull]> ∅))))
  = JS.Return (Some (Chars.q "{'c':null,'a':[1,null,'x\'y']}")).
Proof. vm_compute. reflexivity. Qed.

Example parse_sample :
  JSON.parse (Chars.q " {'a' : [1, 2.5e3, -0.125, 'xA\n'], 'a': {}, 'b': [true, false, null]} ")
  = JS.Return
      (JS.VObj (<["a" := JS.empty_object]>
               (<["b" := JS.VArr [JS.VBool true; JS.VBool false; JS.VNull] ∅]> ∅))).
Proof. vm_compute. reflexivity. Qed.

Example parse_rejects :
  map JSON.parse
    [""; "undefined"; "NaN"; "01"; "1."; "[1,]"; Chars.q "{'a':1,}"; Chars.q "'a"; "nul"; "1 2"; "+1"; ".5"]
  = replicate 12 (JS.Throw JS.SyntaxError).
Proof. vm_compute. reflexivity. Qed.

(** A read-tracking map never written reads as an empty mapping, and
    nothing is stored by the read. *)
Example read_map_never_written :
  loadReadMap "b1" "board" fresh_backend = (Return empty_object, fresh_backend).
Proof. reflexivity. Qed.

(** Saving a read-tracking map and loading it again. *)
Example read_map_saved_and_loaded :
  (saveReadMap "b1" "board" (VObj (<["item1" := num 123]> ∅));;
   loadReadMap "b1" "board") fresh_backend
  = (Return (VObj (<["item1" := num 123]> ∅)),
     holding fresh_backend "pu_read_board__b1" (q "{'item1':123}")).
Proof. vm_compute. reflexivity. Qed.

(** A write under one tenant's key leaves the other tenant's read
    alone. *)
Example writes_do_not_cross_tenants :
  (saveDues "b1" (VObj (<["monthlyFee" := num 1500]> ∅));;
   loadItems "b2" VUndefined) fresh_backend
  = (Return empty_array,
     holding fresh_backend "pu_dues_v1__b1" (q "{'monthlyFee':1500}")).
Proof. vm_compute. reflexivity. Qed.

Example json_data_samples :
  map json_data
    [VObj (<["a" := VArr [num 1; VStr "x"; VNull] ∅]> ∅); VNum (Fin 1505 (-1));
     VNum NaN; VNum (Inf false); VUndefined; VBigInt 3;
     VArr [VUndefined] ∅; VObj (<["a" := VUndefined]> ∅)]
  = [true; true; false; false; false; false; false; false].
Proof. vm_compute. reflexivity. Qed.

(** * The rest of the accessors, dates and required fields *)

Import Arith DateUtils ValidationUtils.

(** ** Number texts through [Number] *)

Lemma digit_cases (c : ascii) :
  is_digit c = true →
  c ∈ ["0"; "1"; "2"; "3"; "4"; "5"; "6"; "7"; "8"; "9"]%char.
Proof.
  destruct c as [[] [] [] [] [] [] [] []]; intros H; try discriminate H;
    set_solver.
Qed.

Ltac each_digit c H :=
  let E := fresh in
  pose proof (digit_cases c H) as E;
  repeat (apply elem_of_cons in E as [-> | E]); [.. | by apply elem_of_nil in E].

Lemma is_space_digit (c : ascii) : is_digit c = true → is_space c = false.
Proof. intros H. each_digit c H; reflexivity. Qed.

Lemma no_space_app (a b : string) :
  no_space (a +:+ b) = no_space a && no_space b.
Proof.
  induction a as [| c a IH]; simpl; [done |]. rewrite IH. by rewrite andb_assoc.
Qed.

Lemma no_space_digits (s : string) : all_digits s = true → no_space s = true.
Proof.
  induction s as [| c s IH]; simpl; [done |].
  intros [Hc Hs]%andb_prop. by rewrite is_space_digit, IH.
Qed.

Lemma trim_no_space (s : string) : no_space s = true → trim s = s.
Proof.
  intros H. unfold trim.
  assert (trim_left s = s) as ->.
  { destruct s as [| c s]; [done |]. simpl in *.
    by destruct (is_space c). }
  induction s as [| c s IH]; simpl in *; [done |].
  apply andb_prop in H as [Hc Hs]. rewrite IH by done.
  destruct (is_space c); [done |]. by destruct s.
Qed.

Lemma span_digits_inv (s ip r : string) :
  span_digits s = (ip, r) →
  s = ip +:+ r ∧ all_digits ip = true ∧ digits_end r = true.
Proof.
  revert ip r. induction s as [| c s IH]; intros ip r; simpl.
  - by intros [= <- <-].
  - destruct (is_digit c) eqn:Hc.
    + destruct (span_digits s) as [d r'] eqn:E. intros [= <- <-].
      destruct (IH d r' eq_refl) as (-> & Hd & Hr). simpl. by rewrite Hc.
    + intros [= <- <-]. simpl. by rewrite Hc.
Qed.

(** The fraction and the exponent as [Number] reads them, against the
    JSON grammar. *)
Lemma fraction_of_json (t fp r2 : string) :
  parse_fraction t = Some (fp, r2) →
  match t with
  | String "." r => span_digits r
  | _ => (EmptyString, t)
  end = (fp, r2).
Proof.
  destruct t as [| c r]; [by intros [= <- <-] |].
  unfold parse_fraction, expect.
  destruct (Ascii.eqb_spec c ".") as [-> | Hne].
  - destruct (span_digits r) as [[| d ds] r']; [done | by intros [= <- <-]].
  - intros [= <- <-].
    destruct c as [[] [] [] [] [] [] [] []]; try reflexivity. done.
Qed.

Lemma exponent_of_json (t : string) (x : Z) :
  parse_exponent t = Some (x, EmptyString) → exponent_part t = Some x.
Proof.
  destruct t as [| c r]; [by intros [= <-] |].
  unfold parse_exponent, exponent_part.
  destruct (Ascii.eqb c "e" || Ascii.eqb c "E"); [| done].
  destruct r as [| c' r'].
  - done.
  - destruct c' as [[] [] [] [] [] [] [] []];
      cbn [expect Ascii.eqb Bool.eqb];
      match goal with
      | |- context [span_digits ?s] =>
          destruct (span_digits s) as [[| d ds] [| a rest]]
      end; try done; by intros [= <-].
Qed.

Lemma unsigned_decimal_json (ip tail fp r2 : string) (x : Z) :
  all_digits ip = true → 1 ≤ String.length ip → digits_end tail = true →
  parse_fraction tail = Some (fp, r2) →
  parse_exponent r2 = Some (x, EmptyString) →
  unsigned_decimal (ip +:+ tail)
  = Some (Z.of_N (digits_value (ip +:+ fp)), (x - Z.of_nat (String.length fp))%Z).
Proof.
  intros Hd Hl Ht Hf Hx. unfold unsigned_decimal.
  rewrite span_digits_app by done.
  rewrite (fraction_of_json tail fp r2 Hf), (exponent_of_json r2 x Hx).
  destruct ip; [simpl in Hl; lia | reflexivity].
Qed.

Lemma no_space_fraction (t fp r2 : string) :
  parse_fraction t = Some (fp, r2) → no_space r2 = true → no_space t = true.
Proof.
  destruct t as [| c r]; [by intros [= <- <-] |].
  unfold parse_fraction, expect.
  destruct (Ascii.eqb_spec c ".") as [-> | Hne]; [| by intros [= <- <-]].
  destruct (span_digits r) as [[| d ds] r'] eqn:E; [done |].
  intros [= <- <-] Hr. destruct (span_digits_inv _ _ _ E) as (-> & Hd & _).
  transitivity (no_space (String d ds +:+ r')); [reflexivity |].
  by rewrite no_space_app, no_space_digits.
Qed.

Lemma no_space_exponent (t : string) (x : Z) :
  parse_exponent t = Some (x, EmptyString) → no_space t = true.
Proof.
  destruct t as [| c r]; [done |]. unfold parse_exponent.
  destruct (Ascii.eqb c "e" || Ascii.eqb c "E") eqn:Ec; [| done].
  assert (is_space c = false) as Hc.
  { apply orb_prop in Ec as [->%Ascii.eqb_eq | ->%Ascii.eqb_eq]; reflexivity. }
  cbn [no_space]. rewrite Hc. cbn [negb andb].
  destruct r as [| c' r']; [done |]. unfold expect.
  destruct (Ascii.eqb_spec c' "-") as [-> | _];
    [| destruct (Ascii.eqb_spec c' "+") as [-> | _]];
    match goal with
    | |- context [span_digits ?s] =>
        destruct (span_digits s) as [[| d ds] [| a rest]] eqn:E
    end; try done; intros _;
    destruct (span_digits_inv _ _ _ E) as (Hs & Hd & _);
    rewrite append_nil_r in Hs.
  - cbn [no_space]. rewrite Hs. by rewrite no_space_digits.
  - cbn [no_space]. rewrite Hs. by rewrite no_space_digits.
  - rewrite Hs. by rewrite no_space_digits.
Qed.

(** What can follow the integer part of a number text. *)
Lemma after_integer_part (p : ascii) (t fp r2 : string) (x : Z) :
  parse_fraction (String p t) = Some (fp, r2) →
  parse_exponent r2 = Some (x, EmptyString) →
  p = "."%char ∨ p = "e"%char ∨ p = "E"%char.
Proof.
  unfold parse_fraction, expect.
  destruct (Ascii.eqb_spec p ".") as [-> | _]; [by left |].
  intros [= <- <-]. unfold parse_exponent.
  destruct (Ascii.eqb p "e" || Ascii.eqb p "E") eqn:Ep; [| done].
  intros _. apply orb_prop in Ep as [->%Ascii.eqb_eq | ->%Ascii.eqb_eq]; auto.
Qed.

Lemma non_decimal_leading (s : string) :
  leading_nonzero s = true → non_decimal s = None.
Proof.
  destruct s as [| c s]; [done |].
  destruct c as [[] [] [] [] [] [] [] []]; done.
Qed.

(** [Number] on a text without spaces that starts with a digit, or
    with a minus sign and a digit. *)
Lemma of_string_unsigned (c : ascii) (r : string) :
  is_digit c = true → no_space r = true →
  non_decimal (String c r) = None →
  of_string (String c r)
  = match unsigned_decimal (String c r) with
    | Some (m, e) => fin m e
    | None => NaN
    end.
Proof.
  intros Hc Hr Hn. unfold of_string. rewrite trim_no_space.
  - rewrite Hn. each_digit c Hc; reflexivity.
  - simpl. by rewrite is_space_digit.
Qed.

Lemma of_string_negative (c : ascii) (r : string) :
  is_digit c = true → no_space r = true →
  of_string (String "-" (String c r))
  = match unsigned_decimal (String c r) with
    | Some (m, e) => fin (- m) e
    | None => NaN
    end.
Proof.
  intros Hc Hr. unfold of_string. rewrite trim_no_space.
  - each_digit c Hc; reflexivity.
  - simpl. by rewrite is_space_digit.
Qed.

(** A text that is a JSON number from end to end is read by [Number]
    as the same number. *)
Lemma of_string_json_number (s : string) (x : number) :
  parse_number s = Some (x, EmptyString) → of_string s = x.
Proof.
  unfold parse_number.
  destruct (parse_sign s) as [neg s1] eqn:Es.
  destruct (span_digits s1) as [ip r1] eqn:Ei.
  destruct (String.length ip =? 0) eqn:El; [done |].
  destruct (negb (leading_nonzero ip) && negb (String.length ip =? 1)) eqn:Ez;
    [done |].
  destruct (parse_fraction r1) as [[fp r2] |] eqn:Ef; [| done].
  destruct (parse_exponent r2) as [[xx rest] |] eqn:Ex; [| done].
  intros [= <- ->].
  destruct (span_digits_inv _ _ _ Ei) as (-> & Hd & Hr).
  apply Nat.eqb_neq in El.
  assert (1 ≤ String.length ip) as Hl by lia.
  assert (no_space (ip +:+ r1) = true) as Hsp.
  { rewrite no_space_app, no_space_digits by done.
    apply (no_space_fraction r1 fp r2 Ef), (no_space_exponent r2 xx Ex). }
  pose proof (unsigned_decimal_json ip r1 fp r2 xx Hd Hl Hr Ef Ex) as Hu.
  destruct ip as [| c ip]; [simpl in Hl; lia |].
  assert (is_digit c = true) as Hc by (simpl in Hd; by apply andb_prop in Hd as [? _]).
  change (String c ip +:+ r1) with (String c (ip +:+ r1)) in Es, Hsp, Hu.
  assert (no_space (ip +:+ r1) = true) as Hsp'.
  { simpl in Hsp. by apply andb_prop in Hsp as [_ ?]. }
  unfold parse_sign, expect in Es. destruct s as [| c0 s].
  { by injection Es. }
  destruct (Ascii.eqb_spec c0 "-") as [-> | Hne].
  - injection Es as <- ->. rewrite of_string_negative, Hu by done. reflexivity.
  - injection Es as <- -> ->. rewrite of_string_unsigned, Hu; try done.
    destruct (leading_nonzero (String c (ip +:+ r1))) eqn:Hz;
      [by apply non_decimal_leading |].
    simpl in Hz. apply negb_false_iff, Ascii.eqb_eq in Hz as ->.
    simpl in Ez. destruct ip; [| done].
    destruct r1 as [| p [| c2 r]]; [done | done |].
    destruct (after_integer_part p _ fp r2 xx Ef Ex) as [-> | [-> | ->]];
      reflexivity.
Qed.

(** [Number(String(x))] is [x]: the text [Number::toString] writes for
    a number in lowest terms is read back by [Number] as that number. *)
Lemma of_string_to_string (x : number) :
  canonical x = true → of_string (to_string x) = x.
Proof.
  destruct x as [| [] | m e]; [reflexivity .. |]. intros Hc.
  apply of_string_json_number.
  rewrite <- (append_nil_r (to_string (Fin m e))).
  by apply parse_number_to_string.
Qed.

(** ** Stored values win over defaults and seeds *)

Lemma load_stored_value (w : world) (key raw : string) (v d s : value) :
  items w !! key = Some raw → JSON.parse raw = Return v →
  is_nullish v = false →
  loadFromStorage key d s w = (Return v, w).
Proof.
  intros Hk Hp Hv.
  assert (raw ≠ EmptyString) as Hne by (intros ->; by rewrite parse_empty in Hp).
  destruct (getItem_truthy w key raw Hk Hne) as [Hg Hraw].
  unfold loadFromStorage, try_catch, mbind, js_bind. rewrite Hg, Hraw.
  cbn [negb]. unfold JSON_parse, lift.
  change (ToString (VStr raw)) with (Return (A := string) raw). cbn [bind].
  rewrite Hp. unfold mret, js_ret. by destruct v.
Qed.


(** X1: when the text stored under [key] parses to something other than
    [null], [loadFromStorage] returns it whatever default and seed it is
    given, and leaves the world as it was: neither the default nor the
    seed is consulted and nothing is written or logged. *)
Theorem X1_stored_value_wins
  (w : world) (key raw : string) (v d s : value) :
  items w !! key = Some raw → JSON.parse raw = Return v →
  is_nullish v = false →
  loadFromStorage key d s w = (Return v, w).
Proof. apply load_stored_value. Qed.

Lemma X1_stored_value_wins_witness :
  loadFromStorage "k" (VStr "d") (num 7) (holding fresh_backend "k" "[1]")
  = (Return (VArr [num 1] ∅), holding fresh_backend "k" "[1]").
Proof.
  apply (X1_stored_value_wins _ "k" "[1]"); vm_compute; reflexivity.
Defined.

(** ** Seeding happens once *)

Lemma lookup_holding (w : world) (key text : string) :
  items (holding w key text) !! key = Some text.
Proof. unfold holding. simpl. apply lookup_insert_eq. Qed.

(** X2: when nothing usable is stored under [key], the seed [s] is JSON
    data other than [null] and the backend takes the write, the load
    returns [s], and every later load of [key], whatever default and
    seed it is given, returns that first seed and changes nothing. *)
Theorem X2_seed_once (w : world) (key : string) (d s : value) :
  nothing_usable w key → json_data s = true → s ≠ VNull →
  (∀ text, JSON.stringify s = Return (Some text) →
           accepts w (items w) key text = true) →
  ∃ w1, loadFromStorage key d s w = (Return s, w1) ∧
        ∀ d' s', loadFromStorage key d' s' w1 = (Return s, w1).
Proof.
  intros Hk Hs Hn Ha.
  destruct (stringify_parse s Hs) as (text & Ht & Hne & Hp).
  exists (holding w key text). split.
  - apply load_seed_written; try done; [by destruct s | by apply Ha].
  - intros d' s'. apply (load_stored_value _ key text).
    + apply lookup_holding.
    + done.
    + by destruct s.
Qed.

Lemma X2_seed_once_witness :
  ∃ w1, loadFromStorage "k" empty_array (VArr [num 1] ∅) fresh_backend
        = (Return (VArr [num 1] ∅), w1) ∧
        ∀ d' s', loadFromStorage "k" d' s' w1 = (Return (VArr [num 1] ∅), w1).
Proof.
  apply (X2_seed_once fresh_backend "k" empty_array (VArr [num 1] ∅));
    [by left | reflexivity | done | reflexivity].
Defined.

(** ** Writes are local to their key *)

(** What a load without a seed returns depends on the text under its
    key only. *)
Lemma load_reads_its_key (w1 w2 : world) (key : string) (d s : value) :
  default_param s VNull = VNull →
  items w1 !! key = items w2 !! key →
  fst (loadFromStorage key d s w1) = fst (loadFromStorage key d s w2).
Proof.
  intros Hs Hk.
  unfold loadFromStorage, try_catch, mbind, js_bind, getItem.
  rewrite Hs, Hk. cbn [is_null negb].
  destruct (negb (ToBoolean _)); [reflexivity |].
  unfold JSON_parse, lift.
  destruct (bind _ _) as [v | e]; reflexivity.
Qed.

Lemma saveToStorage_items (w : world) (key : string) (v : value) :
  items (snd (saveToStorage key v w)) = items w ∨
  ∃ text, items (snd (saveToStorage key v w)) = <[key := text]> (items w).
Proof.
  destruct (store_fails_dec w key v) as [Hf | (t & Hs & Ha)].
  - destruct (save_failed w key v Hf) as [e ->]. by left.
  - rewrite (save_stored w key v t Hs Ha). right. by eexists.
Qed.

(** X3: [saveToStorage(key1, v)], whether it succeeds or fails, leaves
    the text under every other key as it was, and with it what a load
    without seed of another key returns. *)
Theorem X3_writes_are_key_local
  (w : world) (key1 key2 : string) (v d : value) :
  key1 ≠ key2 →
  items (snd (saveToStorage key1 v w)) !! key2 = items w !! key2 ∧
  fst (loadFromStorage key2 d VUndefined (snd (saveToStorage key1 v w)))
  = fst (loadFromStorage key2 d VUndefined w).
Proof.
  intros Hne.
  assert (items (snd (saveToStorage key1 v w)) !! key2 = items w !! key2) as H.
  { destruct (saveToStorage_items w key1 v) as [-> | [text ->]]; [done |].
    by apply lookup_insert_ne. }
  split; [exact H |]. by apply load_reads_its_key.
Qed.

Lemma X3_writes_are_key_local_witness :
  items (snd (saveToStorage (kDues "b1") (num 5) fresh_backend)) !! kDues "b2"
  = items fresh_backend !! kDues "b2" ∧
  fst (loadFromStorage (kDues "b2") VNull VUndefined
         (snd (saveToStorage (kDues "b1") (num 5) fresh_backend)))
  = fst (loadFromStorage (kDues "b2") VNull VUndefined fresh_backend).
Proof.
  apply (X3_writes_are_key_local fresh_backend (kDues "b1") (kDues "b2")).
  discriminate.
Defined.

(** ** Which accessors never raise *)

Lemma saveToStorage_returns (w : world) (key : string) (v : value) :
  ∃ b w', saveToStorage key v w = (Return (VBool b), w').
Proof.
  destruct (store_fails_dec w key v) as [Hf | (t & Hs & Ha)].
  - destruct (save_failed w key v Hf) as [e ->]. eauto.
  - rewrite (save_stored w key v t Hs Ha). eauto.
Qed.

(** X4: every accessor other than [loadDues] and [loadOpeningBalance]
    returns normally in every world and for every argument: whatever is
    stored, whatever the backend refuses and whatever the argument is,
    no exception reaches the caller. *)
Theorem X4_guarded_accessors_return (c : call) (w : world) :
  guarded c = true → ∃ v w', run c w = (Return v, w').
Proof.
  intros Hc.
  destruct c; try discriminate Hc; cbn [run].
  all: try (unfold loadBuildingsDB, loadUsersDB, loadItems, loadFirms,
              loadBoardPosts, loadProposals, loadReadMap;
            apply loadFromStorage_returns).
  all: try (unfold saveBuildingsDB, saveUsersDB, saveDues, saveItems, saveFirms,
              saveBoardPosts, saveProposals, saveReadMap;
            edestruct saveToStorage_returns as (b & w' & ->); by eauto).
  edestruct saveOpeningBalance_returns as (b & w' & ->). eauto.
Qed.

Lemma X4_guarded_accessors_return_witness :
  ∃ v w', run (SaveReadMap "b1" "board" (VBigInt 1)) full_backend = (Return v, w').
Proof.
  apply (X4_guarded_accessors_return (SaveReadMap "b1" "board" (VBigInt 1))).
  reflexivity.
Defined.

(** ** Dues: first read, fallback and round trip *)

Lemma ToBoolean_with_dash (a b : string) :
  ToBoolean (VStr (a +:+ "-" +:+ b)) = true.
Proof. by destruct a. Qed.

Lemma json_data_default_dues (w : world) : json_data (default_dues w) = true.
Proof. reflexivity. Qed.

(** The steps of [loadDues] after the adapter returned. *)
Lemma loadDues_falls_back (w w' : world) (bid : string) (data : value) :
  loadFromStorage (kDues bid) VNull (default_dues w) w = (Return data, w') →
  ToBoolean data = false →
  loadDues bid w = (Return (default_dues w), w').
Proof.
  intros Hl Hd. unfold loadDues. unfold mbind at 1 2 3, js_bind at 1 2 3.
  unfold getFullYear, getMonth. fold (current_month w). fold (default_dues w).
  rewrite Hl, Hd. reflexivity.
Qed.

Lemma loadDues_normalises
  (w w' : world) (bid : string) (p : gmap string value)
  (fee : number) (sm : string) :
  loadFromStorage (kDues bid) VNull (default_dues w) w = (Return (VObj p), w') →
  ToNumber (nullish_else (field p "monthlyFee") (num 2000)) = Return fee →
  ToString (or_else (field p "startMonth") (VStr (current_month w)))
  = Return sm →
  loadDues bid w
  = (Return
       (VObj (<["paymentsByUser" :=
                  or_else (field p "paymentsByUser") empty_object]>
             (<["startMonth" := VStr sm]>
             (<["monthlyFee" := VNum fee]> p)))), w').
Proof.
  intros Hl Hfee Hsm. unfold loadDues. unfold mbind at 1 2 3, js_bind at 1 2 3.
  unfold getFullYear, getMonth. fold (current_month w). fold (default_dues w).
  rewrite Hl. change (ToBoolean (VObj p)) with true. cbn [negb].
  unfold mbind, js_bind, lift, mret, js_ret, get_field, set_field.
  fold (field p "monthlyFee"). rewrite Hfee.
  fold (field (<["monthlyFee" := VNum fee]> p) "startMonth").
  rewrite field_insert_ne by done. rewrite Hsm.
  fold (field (<["startMonth" := VStr sm]> (<["monthlyFee" := VNum fee]> p))
          "paymentsByUser").
  rewrite !field_insert_ne by done. reflexivity.
Qed.

(** A record that has the three fields in shape is a fixed point of the
    normalisation. *)
Lemma well_formed_dues_fixed
  (p : gmap string value) (fee : number) (sm : string) (pbu d : value) :
  p !! "monthlyFee" = Some (VNum fee) → p !! "startMonth" = Some (VStr sm) →
  sm ≠ EmptyString →
  p !! "paymentsByUser" = Some pbu → ToBoolean pbu = true →
  ToNumber (nullish_else (field p "monthlyFee") (num 2000)) = Return fee ∧
  ToString (or_else (field p "startMonth") d) = Return sm ∧
  <["paymentsByUser" := or_else (field p "paymentsByUser") empty_object]>
    (<["startMonth" := VStr sm]> (<["monthlyFee" := VNum fee]> p)) = p.
Proof.
  intros Hf Hs Hne Hp Hb. unfold field. rewrite Hf, Hs, Hp. cbn [default id].
  assert (ToBoolean (VStr sm) = true) as Hsm by (by destruct sm).
  unfold or_else. rewrite Hsm, Hb. repeat split.
  rewrite (insert_id p "monthlyFee") by done.
  rewrite (insert_id p "startMonth") by done.
  by rewrite insert_id.
Qed.

(** X5: when nothing usable is stored under the dues key,
    [loadDues(bid)] returns the record [{monthlyFee: 2000, startMonth:
    <current year-month>, paymentsByUser: {}}] whether or not the
    backend takes the write; the serialized record is stored exactly
    when the backend takes it, and nothing is stored otherwise. *)
Theorem X5_dues_first_read (w : world) (bid : string) :
  nothing_usable w (kDues bid) →
  ∃ text, JSON.stringify (default_dues w) = Return (Some text) ∧
          fst (loadDues bid w) = Return (default_dues w) ∧
          items (snd (loadDues bid w))
          = if accepts w (items w) (kDues bid) text
            then <[kDues bid := text]> (items w) else items w.
Proof.
  intros Hk.
  destruct (stringify_parse _ (json_data_default_dues w)) as (text & Ht & _ & _).
  exists text. split; [done |].
  destruct (accepts w (items w) (kDues bid) text) eqn:Ha.
  - pose (p := <["monthlyFee" := num 2000]>
               (<["startMonth" := VStr (current_month w)]>
               (<["paymentsByUser" := empty_object]> (∅ : gmap string value)))).
    destruct (well_formed_dues_fixed p (of_Z 2000) (current_month w)
                empty_object (VStr (current_month w)))
      as (Hfee & Hsm & Hfix).
    { apply lookup_insert_eq. }
    { subst p. rewrite lookup_insert_ne by done. apply lookup_insert_eq. }
    { unfold current_month. by destruct (to_string _). }
    { subst p. do 2 (rewrite lookup_insert_ne by done). apply lookup_insert_eq. }
    { reflexivity. }
    rewrite (loadDues_normalises w (holding w (kDues bid) text) bid p
               (of_Z 2000) (current_month w)); [| | exact Hfee | exact Hsm].
    + rewrite Hfix. split; reflexivity.
    + clear Hfee Hsm Hfix.
      apply load_seed_written; [exact Hk | discriminate | discriminate | exact Ht | exact Ha].
  - destruct (load_seed_failed w (kDues bid) VNull (default_dues w))
      as [e He]; [exact Hk | discriminate | discriminate | discriminate | |].
    { unfold store_fails. rewrite Ht. exact Ha. }
    rewrite (loadDues_falls_back w _ bid VNull He); [| reflexivity].
    split; reflexivity.
Qed.

Lemma X5_dues_first_read_witness :
  ∃ text, JSON.stringify (default_dues full_backend) = Return (Some text) ∧
          fst (loadDues "b1" full_backend) = Return (default_dues full_backend) ∧
          items (snd (loadDues "b1" full_backend))
          = if accepts full_backend (items full_backend) (kDues "b1") text
            then <[kDues "b1" := text]> (items full_backend)
            else items full_backend.
Proof. apply (X5_dues_first_read full_backend "b1"). by left. Defined.

(** X6: when the non-empty text stored under the dues key does not
    parse, [loadDues(bid)] returns the default record, and the error of
    the parser is logged by the adapter under the message of the load;
    when the text parses to a falsy value ([null], [false], [0], the
    empty string), [loadDues(bid)] returns the default record and
    changes nothing at all.  Nothing is stored in either case.  Texts
    are those whose [\uXXXX] escapes name bytes, on which the parser of
    the model fails exactly when [JSON.parse] throws. *)
Theorem X6_dues_fallback (w : world) (bid raw : string) :
  items w !! kDues bid = Some raw → raw ≠ EmptyString →
  match JSON.parse raw with
  | Return v => ToBoolean v = false
  | Throw _ => byte_escapes raw = true
  end →
  loadDues bid w
  = (Return (default_dues w),
     match JSON.parse raw with
     | Return _ => w
     | Throw e =>
         with_console w (console w ++ [(load_error (kDues bid), e)])
     end).
Proof.
  intros Hk Hne Hp.
  assert (VNull ≠ VUndefined) as Hd by discriminate.
  pose proof (load_stored w (kDues bid) raw VNull (default_dues w) Hk Hne Hd)
    as Hl.
  destruct (JSON.parse raw) as [v | e].
  - apply (loadDues_falls_back w w bid _ Hl). by destruct v.
  - apply (loadDues_falls_back w _ bid _ Hl). reflexivity.
Qed.

Lemma X6_dues_fallback_witness :
  loadDues "b1" (holding fresh_backend (kDues "b1") "{oops")
  = (Return (default_dues (holding fresh_backend (kDues "b1") "{oops")),
     with_console (holding fresh_backend (kDues "b1") "{oops")
       [(load_error (kDues "b1"), SyntaxError)]) ∧
  loadDues "b1" (holding fresh_backend (kDues "b1") "0")
  = (Return (default_dues (holding fresh_backend (kDues "b1") "0")),
     holding fresh_backend (kDues "b1") "0").
Proof.
  split.
  - apply (X6_dues_fallback (holding fresh_backend (kDues "b1") "{oops") "b1"
             "{oops"); [reflexivity | done | reflexivity].
  - apply (X6_dues_fallback (holding fresh_backend (kDues "b1") "0") "b1" "0");
      [reflexivity | done | reflexivity].
Defined.

(** X7: a dues record whose [monthlyFee] is a number, whose
    [startMonth] is a non-empty string and whose [paymentsByUser] is
    truthy, made of JSON data, survives the round trip: when
    [saveDues(bid, obj)] returns [true], the [loadDues(bid)] that
    follows returns [obj] itself, no field repaired, and writes
    nothing. *)
Theorem X7_dues_round_trip
  (w w' : world) (bid : string) (p : gmap string value)
  (fee : number) (sm : string) (pbu : value) :
  json_data (VObj p) = true →
  p !! "monthlyFee" = Some (VNum fee) → p !! "startMonth" = Some (VStr sm) →
  sm ≠ EmptyString →
  p !! "paymentsByUser" = Some pbu → ToBoolean pbu = true →
  saveDues bid (VObj p) w = (Return (VBool true), w') →
  loadDues bid w' = (Return (VObj p), w').
Proof.
  intros Hv Hf Hs Hne Hp Hb Hsave. unfold saveDues in Hsave.
  destruct (stringify_parse _ Hv) as (text & Ht & _ & Hparse).
  destruct (store_fails_dec w (kDues bid) (VObj p)) as [Hfail | (t & Ht' & Ha)].
  { destruct (save_failed w _ _ Hfail) as [e He]. congruence. }
  rewrite (save_stored w _ _ t Ht' Ha) in Hsave. injection Hsave as <-.
  rewrite Ht in Ht'. injection Ht' as <-.
  destruct (well_formed_dues_fixed p fee sm pbu
              (VStr (current_month (holding w (kDues bid) text))))
    as (Hfee & Hsm & Hfix); try done.
  rewrite (loadDues_normalises _ (holding w (kDues bid) text) bid p fee sm);
    [by rewrite Hfix | | done | done].
  apply (load_stored_value _ _ text); [apply lookup_holding | done | done].
Qed.

Lemma X7_dues_round_trip_witness :
  loadDues "b1"
    (holding fresh_backend (kDues "b1")
       (q "{'startMonth':'2026-01','monthlyFee':1500,'paymentsByUser':{'u1':100}}"))
  = (Return (VObj (<["monthlyFee" := num 1500]>
                  (<["startMonth" := VStr "2026-01"]>
                  (<["paymentsByUser" := VObj (<["u1" := num 100]> ∅)]> ∅)))),
     holding fresh_backend (kDues "b1")
       (q "{'startMonth':'2026-01','monthlyFee':1500,'paymentsByUser':{'u1':100}}")).
Proof.
  apply (X7_dues_round_trip fresh_backend _ "b1" _ (of_Z 1500) "2026-01"
           (VObj (<["u1" := num 100]> ∅)));
    [reflexivity | reflexivity | reflexivity | discriminate | reflexivity
    | reflexivity | vm_compute; reflexivity].
Defined.

(** ** The users roster *)

(** X8: [saveUsersDB(rows)] with falsy [rows] ([undefined], [null],
    [false], [0], the empty string) stores the text of the empty array,
    never ["null"] or nothing, so that the [loadUsersDB()] that follows
    returns an empty array read from the backend. *)
Theorem X8_users_roster_defaults_to_empty (w : world) (rows : value) :
  ToBoolean rows = false →
  accepts w (items w) KEY_USERS_DB "[]" = true →
  (saveUsersDB rows;; loadUsersDB) w
  = (Return empty_array, holding w KEY_USERS_DB "[]").
Proof.
  intros Hr Ha. unfold saveUsersDB, loadUsersDB, or_else. rewrite Hr.
  unfold mbind at 1, js_bind at 1.
  rewrite (save_stored w KEY_USERS_DB empty_array (Some "[]"));
    [| reflexivity | exact Ha].
  apply (load_stored_value _ _ "[]"); [apply lookup_holding | reflexivity ..].
Qed.

Lemma X8_users_roster_defaults_to_empty_witness :
  (saveUsersDB VNull;; loadUsersDB) fresh_backend
  = (Return empty_array, holding fresh_backend KEY_USERS_DB "[]").
Proof.
  apply (X8_users_roster_defaults_to_empty fresh_backend VNull); reflexivity.
Defined.

(** ** Saving the opening balance *)

Lemma balance_store_fails_dec (w : world) (bid : string) (val : value) :
  balance_store_fails w bid val ∨
  ∃ n, ToNumber (or_else val (num 0)) = Return n ∧
       accepts w (items w) (kOpeningBalance bid) (to_string n) = true.
Proof.
  unfold balance_store_fails.
  destruct (ToNumber (or_else val (num 0))) as [n | e]; [| by left].
  destruct (accepts w (items w) (kOpeningBalance bid) (to_string n)) eqn:Ha;
    eauto.
Qed.

Lemma save_balance_stored (w : world) (bid : string) (val : value) (n : number) :
  ToNumber (or_else val (num 0)) = Return n →
  accepts w (items w) (kOpeningBalance bid) (to_string n) = true →
  saveOpeningBalance bid val w
  = (Return (VBool true), holding w (kOpeningBalance bid) (to_string n)).
Proof.
  intros Hn Ha. unfold saveOpeningBalance, try_catch, mbind, js_bind, lift.
  rewrite Hn. change (ToString (VNum n)) with (Return (A := string) (to_string n)).
  unfold setItem. rewrite Ha. reflexivity.
Qed.

Lemma save_balance_failed (w : world) (bid : string) (val : value) :
  balance_store_fails w bid val →
  ∃ e, saveOpeningBalance bid val w
       = (Return (VBool false),
          with_console w (console w ++ [("Error saving opening balance:", e)])).
Proof.
  unfold balance_store_fails. intros Hf.
  unfold saveOpeningBalance, try_catch, mbind, js_bind, lift.
  destruct (ToNumber (or_else val (num 0))) as [n | e]; [| by eexists].
  change (ToString (VNum n)) with (Return (A := string) (to_string n)).
  unfold setItem. rewrite Hf. by eexists.
Qed.

(** X9: [saveOpeningBalance(bid, val)] always returns a boolean and
    never throws.  It returns [false] exactly when [Number(val || 0)]
    throws or the backend refuses the write, and then the backend holds
    what it held before; otherwise it returns [true] and the decimal
    text of [Number(val || 0)] is stored under the balance key. *)
Theorem X9_save_balance_semantics (w : world) (bid : string) (val : value) :
  ∃ b w', saveOpeningBalance bid val w = (Return (VBool b), w') ∧
          (balance_store_fails w bid val → b = false ∧ items w' = items w) ∧
          (b = false → balance_store_fails w bid val) ∧
          (b = true →
           ∃ n, ToNumber (or_else val (num 0)) = Return n ∧
                items w' = <[kOpeningBalance bid := to_string n]> (items w)).
Proof.
  destruct (balance_store_fails_dec w bid val) as [Hf | (n & Hn & Ha)].
  - destruct (save_balance_failed w bid val Hf) as [e He].
    exists false. eexists. split; [exact He |].
    split; [done |]. split; [done | discriminate].
  - exists true. eexists. split; [by apply (save_balance_stored w bid val n) |].
    split; [| split].
    + unfold balance_store_fails. rewrite Hn, Ha. discriminate.
    + discriminate.
    + intros _. exists n. done.
Qed.

(** ** The opening balance, saved and read *)

Lemma to_string_nonempty (x : number) :
  canonical x = true → to_string x ≠ EmptyString.
Proof.
  intros Hc He. pose proof (of_string_to_string x Hc) as H.
  rewrite He in H. change (of_string "") with (Fin 0 0) in H. by subst x.
Qed.

(** What [saveOpeningBalance] stores for a number: the number, 0 for
    [NaN]. *)
Lemma balance_of_number (x : number) :
  canonical x = true →
  ToNumber (or_else (VNum x) (num 0))
  = Return (if is_NaN x then Fin 0 0 else x).
Proof.
  intros Hc. unfold or_else, ToBoolean.
  destruct x as [| neg | m e]; try reflexivity.
  simpl in *. destruct (Z.eqb_spec m 0) as [-> | _]; [| reflexivity].
  apply Z.eqb_eq in Hc as ->. reflexivity.
Qed.

(** X10: a number saved as opening balance is the number read back:
    when [saveOpeningBalance(bid, x)] returns [true], the
    [loadOpeningBalance(bid)] that follows returns [x] (0 when [x] is
    [NaN]) and writes nothing.  Negative, fractional, very large, very
    small and infinite balances all survive. *)
Theorem X10_balance_round_trip (w w' : world) (bid : string) (x : number) :
  canonical x = true →
  saveOpeningBalance bid (VNum x) w = (Return (VBool true), w') →
  loadOpeningBalance bid w'
  = (Return (VNum (if is_NaN x then Fin 0 0 else x)), w').
Proof.
  intros Hc Hsave. pose proof (balance_of_number x Hc) as Hn.
  set (n := if is_NaN x then Fin 0 0 else x) in *.
  assert (canonical n = true) as Hcn by (subst n; by destruct x).
  destruct (balance_store_fails_dec w bid (VNum x)) as [Hf | (n' & Hn' & Ha)].
  { destruct (save_balance_failed w bid _ Hf) as [e He]. congruence. }
  rewrite Hn in Hn'. injection Hn' as <-.
  rewrite (save_balance_stored w bid _ n Hn Ha) in Hsave.
  injection Hsave as <-.
  rewrite (opening_balance_stored _ bid (to_string n));
    [| apply lookup_holding | by apply to_string_nonempty].
  rewrite of_string_to_string by done. do 2 f_equal.
  unfold or_else, ToBoolean. subst n.
  destruct x as [| neg | m e]; try reflexivity.
  simpl in *. destruct (Z.eqb_spec m 0) as [-> | _]; [| reflexivity].
  apply Z.eqb_eq in Hc as ->. reflexivity.
Qed.

Lemma X10_balance_round_trip_witness :
  loadOpeningBalance "b1"
    (holding fresh_backend (kOpeningBalance "b1") "-0.0000015")
  = (Return (VNum (Fin (-15) (-7))),
     holding fresh_backend (kOpeningBalance "b1") "-0.0000015").
Proof.
  apply (X10_balance_round_trip fresh_backend _ "b1" (Fin (-15) (-7)));
    reflexivity.
Defined.

(** ** Arithmetic on integers *)

(** A non-zero integer is a multiple of a power of ten by a mantissa
    that ends in no zero. *)
Lemma pow10_decompose (n : nat) (m : Z) :
  (Z.abs m < Z.of_nat n)%Z → m ≠ 0%Z →
  ∃ (m0 : Z) (i : nat), m = (m0 * 10 ^ Z.of_nat i)%Z ∧ (m0 mod 10 ≠ 0)%Z.
Proof.
  revert m. induction n as [| n IH]; intros m Hn Hm; [lia |].
  destruct (Z.eq_dec (m mod 10)%Z 0%Z) as [H0 | H0].
  - apply Z.mod_divide in H0 as [k ->]; [| lia].
    destruct (IH k) as (m0 & i & -> & Hm0); [lia | lia |].
    exists m0, (S i). split; [| done].
    rewrite Nat2Z.inj_succ, Z.pow_succ_r by lia. lia.
  - exists m, 0. split; [simpl; lia | done].
Qed.

(** [fin] depends on the value only. *)
Lemma fin_shift (m e : Z) (j : nat) :
  fin (m * 10 ^ Z.of_nat j) e = fin m (e + Z.of_nat j).
Proof.
  destruct (Z.eq_dec m 0%Z) as [-> | Hm]; [reflexivity |].
  destruct (pow10_decompose (S (Z.to_nat (Z.abs m))) m) as (m0 & i & -> & H0);
    [lia | done |].
  rewrite <- Z.mul_assoc, <- Z.pow_add_r, <- Nat2Z.inj_add by lia.
  rewrite !fin_pow by done. f_equal. lia.
Qed.

(** An integer as a number: a mantissa and a power of ten that is no
    fraction. *)
Lemma of_Z_decode (z : Z) :
  ∃ (m : Z) (i : nat), of_Z z = Fin m (Z.of_nat i) ∧ z = (m * 10 ^ Z.of_nat i)%Z.
Proof.
  destruct (Z.eq_dec z 0%Z) as [-> | Hz]; [by exists 0%Z, 0 |].
  destruct (pow10_decompose (S (Z.to_nat (Z.abs z))) z) as (m0 & i & -> & H0);
    [lia | done |].
  exists m0, i. split; [| done]. unfold of_Z. by rewrite fin_pow.
Qed.

Lemma fin_of_Z (m : Z) (i : nat) : fin m (Z.of_nat i) = of_Z (m * 10 ^ Z.of_nat i).
Proof. unfold of_Z. by rewrite fin_shift. Qed.

Lemma pow10_split (a b : nat) :
  (10 ^ Z.of_nat a
   = 10 ^ (Z.of_nat a - Z.min (Z.of_nat a) (Z.of_nat b))
     * 10 ^ Z.of_nat (Nat.min a b))%Z.
Proof.
  rewrite <- Z.pow_add_r by lia. f_equal. lia.
Qed.

Lemma add_of_Z (a b : Z) : add (of_Z a) (of_Z b) = of_Z (a + b).
Proof.
  destruct (of_Z_decode a) as (m1 & i1 & -> & ->).
  destruct (of_Z_decode b) as (m2 & i2 & -> & ->).
  unfold add. cbv zeta.
  replace (Z.min (Z.of_nat i1) (Z.of_nat i2)) with (Z.of_nat (Nat.min i1 i2)) at 3
    by lia.
  rewrite fin_of_Z. f_equal.
  pose proof (pow10_split i1 i2) as H1. pose proof (pow10_split i2 i1) as H2.
  rewrite (Nat.min_comm i2 i1), (Z.min_comm (Z.of_nat i2)) in H2.
  rewrite H1, H2. ring.
Qed.

Lemma opp_of_Z (a : Z) : opp (of_Z a) = of_Z (- a).
Proof.
  destruct (of_Z_decode a) as (m & i & H & ->). rewrite H.
  replace (- (m * 10 ^ Z.of_nat i))%Z with (- m * 10 ^ Z.of_nat i)%Z by lia.
  rewrite <- fin_of_Z. cbn [opp].
  assert (canonical (Fin m (Z.of_nat i)) = true) as Hc
    by (rewrite <- H; apply fin_lowest_terms).
  symmetry. apply fin_canonical. unfold canonical in *.
  destruct (Z.eqb_spec m 0) as [-> | Hm]; [done |].
  destruct (Z.eqb_spec (- m) 0) as [? | _]; [lia |].
  destruct (Z.eqb_spec (m mod 10) 0) as [? | Hm10]; [done |].
  destruct (Z.eqb_spec (- m mod 10) 0) as [H0 | H0]; [| done].
  apply Z.mod_divide in H0 as [k Hk]; [| lia].
  exfalso. apply Hm10. apply Z.mod_divide; [lia |]. exists (- k)%Z. lia.
Qed.

Lemma sub_of_Z (a b : Z) : sub (of_Z a) (of_Z b) = of_Z (a - b).
Proof. unfold sub. by rewrite opp_of_Z, add_of_Z. Qed.

Lemma mul_of_Z (a b : Z) : mul (of_Z a) (of_Z b) = of_Z (a * b).
Proof.
  destruct (of_Z_decode a) as (m1 & i1 & -> & ->).
  destruct (of_Z_decode b) as (m2 & i2 & -> & ->).
  cbn [mul]. rewrite <- Nat2Z.inj_add, fin_of_Z. f_equal.
  rewrite Nat2Z.inj_add, Z.pow_add_r by lia. lia.
Qed.

Lemma ltb_of_Z (a b : Z) : ltb (of_Z a) (of_Z b) = (a <? b)%Z.
Proof.
  destruct (of_Z_decode a) as (m1 & i1 & -> & ->).
  destruct (of_Z_decode b) as (m2 & i2 & -> & ->).
  cbn [ltb]. cbv zeta.
  pose proof (pow10_split i1 i2) as H1. pose proof (pow10_split i2 i1) as H2.
  rewrite (Nat.min_comm i2 i1), (Z.min_comm (Z.of_nat i2)) in H2.
  rewrite H1, H2.
  set (p := (10 ^ Z.of_nat (Nat.min i1 i2))%Z).
  assert (0 < p)%Z by (apply Z.pow_pos_nonneg; lia).
  destruct (Z.ltb_spec (m1 * 10 ^ (Z.of_nat i1 - Z.min (Z.of_nat i1) (Z.of_nat i2)))
              (m2 * 10 ^ (Z.of_nat i2 - Z.min (Z.of_nat i1) (Z.of_nat i2))));
    symmetry; [apply Z.ltb_lt | apply Z.ltb_ge]; nia.
Qed.

Lemma is_NaN_of_Z (a : Z) : is_NaN (of_Z a) = false.
Proof. by destruct (of_Z_decode a) as (m & i & -> & _). Qed.

Lemma Math_max_of_Z (a b : Z) : Math_max (of_Z a) (of_Z b) = of_Z (Z.max a b).
Proof.
  unfold Math_max. rewrite !is_NaN_of_Z, ltb_of_Z. cbn [orb].
  destruct (Z.ltb_spec a b); f_equal; lia.
Qed.

(** ** Splitting at a character *)

Lemma split_lacks (sep : ascii) (s : string) :
  lacks sep s = true → split sep s = [s].
Proof.
  induction s as [| c s IH]; [done |]. simpl.
  intros [Hc Hs]%andb_prop. apply negb_true_iff in Hc. by rewrite Hc, IH.
Qed.

Lemma split_app (sep : ascii) (a b : string) :
  lacks sep a = true → split sep (a +:+ String sep b) = a :: split sep b.
Proof.
  induction a as [| c a IH]; simpl.
  - intros _. by rewrite Ascii.eqb_refl.
  - intros [Hc Ha]%andb_prop. apply negb_true_iff in Hc. by rewrite Hc, IH.
Qed.

Lemma length_split (sep : ascii) (s : string) :
  length (split sep s) = S (occurrences sep s).
Proof.
  induction s as [| c s IH]; [done |]. simpl.
  destruct (Ascii.eqb c sep); simpl; [by rewrite IH |].
  destruct (split sep s); simpl in *; [done | by rewrite IH].
Qed.

Lemma lacks_digits (c : ascii) (s : string) :
  is_digit c = false → all_digits s = true → lacks c s = true.
Proof.
  intros Hc. induction s as [| d s IH]; simpl; [done |].
  intros [Hd Hs]%andb_prop. by rewrite (is_digit_not d c), IH.
Qed.

(** ** Digit strings through [Number] *)

Lemma non_decimal_digits (s : string) :
  all_digits s = true → non_decimal s = None.
Proof.
  destruct s as [| c [| p [| c2 r]]]; [done | | |].
  - simpl. rewrite andb_true_r. intros Hc. each_digit c Hc; reflexivity.
  - simpl. rewrite andb_true_r. intros [Hc _]%andb_prop.
    each_digit c Hc; reflexivity.
  - intros Hd.
    destruct (leading_nonzero (String c (String p (String c2 r)))) eqn:Hz;
      [by apply non_decimal_leading |].
    simpl in Hz. apply negb_false_iff, Ascii.eqb_eq in Hz as ->.
    simpl in Hd. apply andb_prop in Hd as [Hp _].
    each_digit p Hp; reflexivity.
Qed.

Lemma of_string_digits (s : string) :
  all_digits s = true → s ≠ EmptyString → of_string s = of_Z (digits_Z s).
Proof.
  intros Hd Hne. destruct s as [| c r]; [done |].
  pose proof Hd as Hd'. simpl in Hd'. apply andb_prop in Hd' as [Hc Hr].
  rewrite of_string_unsigned;
    [| done | by apply no_space_digits | by apply non_decimal_digits].
  pose proof (unsigned_decimal_json (String c r) "" "" "" 0 Hd) as Hu.
  rewrite !append_nil_r in Hu. rewrite Hu; [reflexivity | simpl; lia | done ..].
Qed.

(** ** Integers written by [String] *)

Lemma digits_value_acc_ge (s : string) (acc : N) :
  (acc * 10 ^ N.of_nat (String.length s) ≤ digits_value_acc s acc)%N.
Proof.
  revert acc. induction s as [| c s IH]; intros acc.
  - simpl. lia.
  - cbn [digits_value_acc String.length]. etransitivity; [| apply IH].
    rewrite Nat2N.inj_succ, N.pow_succ_r'. nia.
Qed.

Lemma digits_lower_bound (s : string) :
  all_digits s = true → leading_nonzero s = true →
  (10 ^ N.of_nat (String.length s - 1) ≤ digits_value s)%N.
Proof.
  destruct s as [| c s]; [done |]. simpl. intros [Hc _]%andb_prop Hz.
  rewrite Nat.sub_0_r. unfold digits_value. cbn [digits_value_acc].
  etransitivity; [| apply digits_value_acc_ge].
  assert (1 ≤ digit_val c)%N by (each_digit c Hc; done).
  nia.
Qed.

Lemma is_finite_of_Z (z : Z) : is_finite (of_Z z) = true.
Proof. by destruct (of_Z_decode z) as (m & i & -> & _). Qed.

(** A natural number below [10^21] is written with its digits alone. *)
Lemma to_string_of_Z_digits (z : Z) :
  (0 ≤ z < 10 ^ 21)%Z →
  all_digits (to_string (of_Z z)) = true ∧
  to_string (of_Z z) ≠ EmptyString ∧
  digits_Z (to_string (of_Z z)) = z.
Proof.
  intros Hz. destruct (Z.eq_dec z 0%Z) as [-> | Hz0]; [done |].
  pose proof (fin_lowest_terms z 0) as Hc. fold (of_Z z) in Hc.
  destruct (of_Z_decode z) as (m & i & Hm & ->). rewrite Hm in *.
  assert (0 < 10 ^ Z.of_nat i)%Z as Hp by (apply Z.pow_pos_nonneg; lia).
  assert (0 < m)%Z as Hm0 by nia.
  unfold to_string, finite_to_string.
  destruct (Z.eqb_spec m 0) as [? | _]; [lia |].
  destruct (Z.ltb_spec m 0) as [? | _]; [lia |].
  destruct (N_to_string_spec (Z.abs_N m)) as (Hd & Hv & Hl & Hlz).
  specialize (Hlz ltac:(lia)).
  pose proof (digits_lower_bound _ Hd Hlz) as Hlow.
  set (ds := N_to_string (Z.abs_N m)) in *.
  set (k := Z.of_nat (String.length ds)).
  assert (k + Z.of_nat i ≤ 21)%Z as Hn.
  { rewrite Hv in Hlow. apply N2Z.inj_le in Hlow.
    rewrite N2Z.inj_pow, nat_N_Z, N2Z.inj_abs_N in Hlow.
    assert (10 ^ (Z.of_nat (String.length ds - 1) + Z.of_nat i) < 10 ^ 21)%Z as Hlt.
    { rewrite Z.pow_add_r by lia. nia. }
    apply Z.pow_lt_mono_r_iff in Hlt; unfold k; lia. }
  destruct (Z.leb_spec k (k + Z.of_nat i)) as [_ | ?]; [| lia].
  destruct (Z.leb_spec (k + Z.of_nat i) 21) as [_ | ?]; [| lia].
  cbn [andb]. replace (Z.to_nat (k + Z.of_nat i - k)) with i by lia.
  split; [| split].
  - by rewrite all_digits_app, Hd, all_digits_zeros.
  - destruct ds; [simpl in Hl; lia | done].
  - unfold digits_Z, digits_value.
    rewrite digits_value_acc_app, digits_value_acc_zeros.
    fold (digits_value ds). rewrite Hv, N2Z.inj_mul, N2Z.inj_abs_N, of_N_pow10.
    lia.
Qed.

(** The month of the year as [ymNow] and [loadDues] write it. *)
Lemma month_text_digits (mo : Z) :
  (0 ≤ mo ≤ 11)%Z →
  all_digits (padStart 2 "0" (to_string (of_Z (mo + 1)))) = true ∧
  padStart 2 "0" (to_string (of_Z (mo + 1))) ≠ EmptyString ∧
  digits_Z (padStart 2 "0" (to_string (of_Z (mo + 1)))) = (mo + 1)%Z.
Proof.
  intros H.
  assert (mo = 0 ∨ mo = 1 ∨ mo = 2 ∨ mo = 3 ∨ mo = 4 ∨ mo = 5 ∨ mo = 6
          ∨ mo = 7 ∨ mo = 8 ∨ mo = 9 ∨ mo = 10 ∨ mo = 11)%Z as Hin by lia.
  repeat (destruct Hin as [-> | Hin]; [done |]). by subst mo.
Qed.

(** ** Month indices *)

Lemma ymToIndex_digits (a b : string) :
  all_digits a = true → a ≠ EmptyString →
  all_digits b = true → b ≠ EmptyString →
  ymToIndex (VStr (a +:+ "-" +:+ b))
  = Return (num (12 * digits_Z a + digits_Z b - 1)).
Proof.
  intros Ha Hae Hb Hbe. unfold ymToIndex, or_else.
  rewrite ToBoolean_with_dash.
  change (ToString (VStr (a +:+ "-" +:+ b)))
    with (Return (A := string) (a +:+ String "-" b)).
  cbn [bind].
  rewrite split_app by (by apply lacks_digits).
  rewrite split_lacks by (by apply lacks_digits).
  cbn [map lookup list_lookup default id].
  rewrite !of_string_digits by done.
  cbn [id Number_isFinite]. rewrite !is_finite_of_Z. cbn [negb orb].
  change (ToNumber (VNum ?x)) with (Return (A := number) x). cbn [bind].
  rewrite mul_of_Z, sub_of_Z, add_of_Z. unfold num. do 3 f_equal. lia.
Qed.

(** X11: for a year and a month written with digits,
    [ymToIndex("<year>-<month>")] is [year * 12 + month - 1], leading
    zeros or not, as long as the index stays below [2^53], where the
    arithmetic of doubles is exact. *)
Theorem X11_ymToIndex_of_year_month (a b : string) :
  all_digits a = true → a ≠ EmptyString →
  all_digits b = true → b ≠ EmptyString →
  (12 * digits_Z a + digits_Z b < 2 ^ 53)%Z →
  ymToIndex (VStr (a +:+ "-" +:+ b))
  = Return (num (digits_Z a * 12 + (digits_Z b - 1))).
Proof.
  intros Ha Hae Hb Hbe _. rewrite ymToIndex_digits by done.
  do 2 f_equal. lia.
Qed.

Lemma X11_ymToIndex_of_year_month_witness :
  ymToIndex (VStr "2026-01") = Return (num 24312).
Proof.
  apply (X11_ymToIndex_of_year_month "2026" "01"); done.
Defined.

(** X12: when the text of the argument ([String(ym || "")]) holds no
    dash, [ymToIndex] returns 0: there is no second part, so the month
    is [undefined].  This is the case of every falsy argument, of a
    bare year such as "2026" and of a non-negative integer. *)
Theorem X12_ymToIndex_without_dash (ym : value) (s : string) :
  ToString (or_else ym (VStr "")) = Return s → lacks "-" s = true →
  ymToIndex ym = Return (num 0).
Proof.
  intros Hs Hl. unfold ymToIndex. rewrite Hs. cbn [bind].
  rewrite split_lacks by done. cbn [map lookup list_lookup default id].
  cbn [Number_isFinite negb]. by rewrite orb_true_r.
Qed.

Lemma X12_ymToIndex_without_dash_witness :
  ymToIndex (VStr "2026") = Return (num 0).
Proof.
  apply (X12_ymToIndex_without_dash (VStr "2026") "2026"); reflexivity.
Defined.

(** X13: for two months written with digits,
    [monthsBetweenInclusive(start, end)] is the number of months from
    the first to the last, both counted: [end - start + 1] in month
    indices, 1 for the same month, and 0 when [end] is before
    [start]. *)
Theorem X13_months_between
  (y1 m1 y2 m2 : string) :
  all_digits y1 = true → y1 ≠ EmptyString →
  all_digits m1 = true → m1 ≠ EmptyString →
  all_digits y2 = true → y2 ≠ EmptyString →
  all_digits m2 = true → m2 ≠ EmptyString →
  (12 * digits_Z y1 + digits_Z m1 < 2 ^ 53)%Z →
  (12 * digits_Z y2 + digits_Z m2 < 2 ^ 53)%Z →
  monthsBetweenInclusive (VStr (y1 +:+ "-" +:+ m1)) (VStr (y2 +:+ "-" +:+ m2))
  = Return (num (Z.max 0 ((digits_Z y2 * 12 + digits_Z m2)
                          - (digits_Z y1 * 12 + digits_Z m1) + 1))).
Proof.
  intros. unfold monthsBetweenInclusive. rewrite !ymToIndex_digits by done.
  unfold num. cbn [bind].
  change (ToNumber (VNum ?x)) with (Return (A := number) x). cbn [bind].
  rewrite sub_of_Z, add_of_Z, Math_max_of_Z. do 3 f_equal. lia.
Qed.

Lemma X13_months_between_witness :
  monthsBetweenInclusive (VStr "2025-11") (VStr "2026-02") = Return (num 4).
Proof.
  apply (X13_months_between "2025" "11" "2026" "02"); try done; reflexivity.
Defined.

(** X14: the month [ymNow()] writes is read back by [ymToIndex] as
    [year * 12 + month], for every date of the calendar of [Date] from
    the year 0 on ([month] counts from 0). *)
Theorem X14_index_of_current_month (w : world) :
  (0 ≤ year w ≤ 275760)%Z → (0 ≤ month w ≤ 11)%Z →
  (ym ← ymNow; lift (ymToIndex ym)) w
  = (Return (num (year w * 12 + month w)), w).
Proof.
  intros Hy Hm. unfold ymNow, getFullYear, getMonth, mbind, js_bind, mret,
    js_ret, lift.
  destruct (to_string_of_Z_digits (year w)) as (Ha & Hae & Hav); [lia |].
  destruct (month_text_digits (month w) Hm) as (Hb & Hbe & Hbv).
  rewrite ymToIndex_digits by done. rewrite Hav, Hbv. do 3 f_equal. lia.
Qed.

Lemma X14_index_of_current_month_witness :
  (ym ← ymNow; lift (ymToIndex ym)) fresh_backend
  = (Return (num 24322), fresh_backend).
Proof.
  apply (X14_index_of_current_month fresh_backend); simpl; lia.
Defined.

(** ** Dates *)

(** X15: [formatDateDMY] turns a text of three parts separated by two
    dashes, [y-m-d], into [d.m.y.], and returns every string with
    another number of dashes as it is, the empty string included. *)
Theorem X15_formatDateDMY (s y m d : string) :
  (occurrences "-" s ≠ 2 → formatDateDMY (VStr s) = Return (VStr s)) ∧
  (lacks "-" y = true → lacks "-" m = true → lacks "-" d = true →
   formatDateDMY (VStr (y +:+ "-" +:+ m +:+ "-" +:+ d))
   = Return (VStr (d +:+ "." +:+ m +:+ "." +:+ y +:+ "."))).
Proof.
  split.
  - intros Hn. unfold formatDateDMY. destruct s as [| c s]; [reflexivity |].
    change (ToBoolean (VStr (String c s))) with true.
    change (ToString (VStr (String c s)))
      with (Return (A := string) (String c s)).
    cbn [negb bind]. rewrite length_split.
    destruct (Nat.eqb_spec (S (occurrences "-" (String c s))) 3); [lia | done].
  - intros Hy Hm Hd. unfold formatDateDMY.
    rewrite ToBoolean_with_dash.
    change (ToString (VStr (y +:+ "-" +:+ m +:+ "-" +:+ d)))
      with (Return (A := string) (y +:+ String "-" (m +:+ String "-" d))).
    cbn [negb bind].
    rewrite !split_app, split_lacks by done. reflexivity.
Qed.

Lemma X15_formatDateDMY_witness :
  formatDateDMY (VStr "2026-01") = Return (VStr "2026-01") ∧
  formatDateDMY (VStr "2026-01-25") = Return (VStr "25.01.2026.").
Proof.
  destruct (X15_formatDateDMY "2026-01" "2026" "01" "25") as [H1 H2].
  split; [apply H1; simpl; lia | apply H2; reflexivity].
Defined.

(** ** Required fields *)

Lemma validateRequired_strings (name text : string) :
  validateRequired (VStr text) (VStr name)
  = Return (if is_blank text then verdict false (name +:+ " je obavezan.")
            else verdict true "").
Proof.
  unfold validateRequired, is_blank.
  assert (ToString (or_else (VStr text) (VStr "")) = Return text) as ->
    by (by destruct text).
  cbn [bind default_param].
  change (ToBoolean (VStr (trim text))) with (negb (String.eqb (trim text) "")).
  by destruct (String.eqb (trim text) "").
Qed.

(** X16: on a form of fields [{ value, name }] that hold strings,
    [validateRequiredFields] passes exactly when no value is blank
    (empty or white space only), and otherwise fails with the message
    that names the first blank field: the fields after it are not
    looked at. *)
Theorem X16_first_blank_field (form : list (string * string)) :
  validateRequiredFields
    (VArr (map (λ field, form_field field.1 field.2) form) ∅)
  = Return match first_blank form with
           | Some name => verdict false (name +:+ " je obavezan.")
           | None => verdict true ""
           end.
Proof.
  cbn [validateRequiredFields].
  induction form as [| [name text] form IH]; [reflexivity |].
  cbn [map validateRequiredFields_loop first_blank fst snd].
  change (get_field (form_field name text) "value") with (Return (VStr text)).
  change (get_field (form_field name text) "name") with (Return (VStr name)).
  cbn [bind]. rewrite validateRequired_strings.
  destruct (is_blank text); cbn [bind]; [reflexivity |].
  change (get_field (verdict true "") "valid") with (Return (VBool true)).
  cbn [bind]. change (ToBoolean (VBool true)) with true. exact IH.
Qed.
